(** * SpockBot core network plugin: [spock/plugins/core/net.py]

    A shallow embedding of the three classes of the file -- [SelectSocket],
    [NetCore] and [NetPlugin] -- and the properties of the protocol engine
    that follow from it.

    Python objects are records, attribute assignment is a record update, and
    every method is a computation in a state-and-exception monad over one
    [World]: the objects the plugin owns, the notification bus, and the
    process's standard output.  The operating system (connect, send, recv,
    select) is not part of the program: each method that makes a system call
    takes the outcome of that call as an argument.

    One method is left out: [NetCore.push_packet], which builds its packet
    from a table of [mcpacket] before it calls [push]. *)

From Stdlib Require Import ZArith Lia.
From Stdlib.Strings Require Import Byte.
From stdpp Require Import base option list strings gmap.

Set Default Proof Using "Type".

(** ** Values, packets, exceptions *)

(** The field values a decoded packet carries in [packet.data]. *)
Inductive value :=
| VInt (z : Z)
| VStr (s : string)
| VBytes (b : list byte).

(** [mcpacket.Packet] as this file uses it: the attributes [ident],
    [str_ident] and [data]. *)
Record Packet := {
  ident : Z * Z * Z;
  str_ident : string;
  data : gmap string value;
}.

(** The exceptions that can travel through the methods of the file.
    [socket.error] and [select.error] are both [OSError]: in Python 3, which
    the file is written for, the two names denote that one class. *)
Inductive exn :=
| BufferUnderflowException
| OSError (msg : string)
| KeyError (key : value)
| TypeError (msg : string)
| AttributeError (attr : string)
| OtherError (cls msg : string).

(** What a notification carries, and what [print] is given. *)
Inductive payload :=
| PNone
| PStr (s : string)
| PVal (v : value)
| PPacket (p : Packet)
| PExn (e : exn)
| PAddr (host : string) (port : Z).

(** Notifications are emitted under a string ([str_ident], ['disconnect'],
    the readiness flags) or under a packet's [ident] tuple. *)
Inductive ename :=
| Name (s : string)
| Ident (i : Z * Z * Z).

(** A Python attribute that may not have been assigned yet. *)
Inductive attr (A : Type) :=
| Unset
| PyNone
| Obj (a : A).
Arguments Unset {A}.
Arguments PyNone {A}.
Arguments Obj {A} a.

Definition is_obj {A} (x : attr A) : bool :=
  match x with Obj _ => true | _ => false end.

(** [mcdata.PROTO_COMP_OFF] and [mcdata.PROTO_COMP_ON]: the file only ever
    stores one of the two named constants in [comp_state]. *)
Inductive CompState := PROTO_COMP_OFF | PROTO_COMP_ON.

(** ** The receive buffer *)

(** Modelled from the spec: [utils.BoundBuffer] is not part of the sources at
    hand.  "An ordered byte sequence plus a single saved cursor": [bytes] is
    the sequence, [pos] the read position, [mark] the checkpoint. *)
Record BoundBuffer := {
  bytes : list byte;
  pos : nat;
  mark : nat;
}.

Module BoundBuffer.

(** [utils.BoundBuffer()] *)
Definition new : BoundBuffer := {| bytes := []; pos := 0; mark := 0 |}.

(** "[append(bytes)] unconditionally extends the buffer" *)
Definition append (bs : list byte) (b : BoundBuffer) : BoundBuffer :=
  {| bytes := bytes b ++ bs; pos := pos b; mark := mark b |}.

(** "[save()] records the current logical offset as a checkpoint" *)
Definition save (b : BoundBuffer) : BoundBuffer :=
  {| bytes := bytes b; pos := pos b; mark := pos b |}.

(** "[revert()] resets the logical read position to the last checkpoint" *)
Definition revert (b : BoundBuffer) : BoundBuffer :=
  {| bytes := bytes b; pos := mark b; mark := mark b |}.

(** "Decoding advances the logical position as it consumes bytes" *)
Definition advance (k : nat) (b : BoundBuffer) : BoundBuffer :=
  {| bytes := bytes b; pos := pos b + k; mark := mark b |}.

(** The bytes a reader sees: everything from the read position on. *)
Definition unread (b : BoundBuffer) : list byte := drop (pos b) (bytes b).

(** The read position lies inside the byte sequence. *)
Definition wf (b : BoundBuffer) : Prop := pos b <= length (bytes b).

End BoundBuffer.

(** ** The objects of the plugin *)

(** The operating system's stream socket behind [SelectSocket.sock]: what the
    file changes about it is its blocking mode and its peer. *)
Record Socket := {
  blocking : bool;
  peer : option (string * Z);
}.

(** [socket.socket(AF_INET, SOCK_STREAM)] followed by [setblocking(False)] *)
Definition fresh_socket : Socket := {| blocking := false; peer := None |}.

Definition setblocking (flag : bool) (s : Socket) : Socket :=
  {| blocking := flag; peer := peer s |}.

Definition set_peer (p : option (string * Z)) (s : Socket) : Socket :=
  {| blocking := blocking s; peer := p |}.

(** [class SelectSocket]; the timer is an outside collaborator and its
    [get_timeout()] is an argument of [poll]. *)
Record SelectSocket := {
  sending : bool;
  sock : Socket;
}.

Definition set_sending (flag : bool) (s : SelectSocket) : SelectSocket :=
  {| sending := flag; sock := sock s |}.

Definition set_sock (o : Socket) (s : SelectSocket) : SelectSocket :=
  {| sending := sending s; sock := o |}.

Module SelectSocket.

(** [SelectSocket.__init__] *)
Definition init : SelectSocket := {| sending := false; sock := fresh_socket |}.

(** [SelectSocket.reset]: close the handle, take a fresh non-blocking one.
    [sending] is not touched. *)
Definition reset (s : SelectSocket) : SelectSocket := set_sock fresh_socket s.

End SelectSocket.

(** ** Outside collaborators

    [net.py] imports three modules of the package that are not part of the
    sources at hand.  What it uses of them is taken as a parameter. *)

(** [mccrypto.AESCipher]: a cipher object is stateful, so [encrypt] and
    [decrypt] return the object's next state with their output. *)
Class McCrypto := {
  Cipher : Type;
  AESCipher : list byte → Cipher;
  encrypt : Cipher → list byte → list byte * Cipher;
  decrypt : Cipher → list byte → list byte * Cipher;
}.

(** [mcdata]: the named protocol states, the direction constant and the
    table [state_lookup] (a dict: a state outside it is a [KeyError]). *)
Class McData := {
  HANDSHAKE_STATE : Z;
  STATUS_STATE : Z;
  LOGIN_STATE : Z;
  PLAY_STATE : Z;
  SERVER_TO_CLIENT : Z;
  state_lookup : Z → option string;
}.

(** The outcome of a computation: a value, or a raised exception. *)
Inductive Res (A : Type) :=
| Ok (a : A)
| Raise (e : exn).
Arguments Ok {A} a.
Arguments Raise {A} e.

(** [mcpacket.Packet]: [encode] and [decode].

    [decode ident comp unread] is [Packet(ident).decode(rbuff, comp)] run on
    a buffer whose unread bytes are [unread]: the value it returns or the
    exception it raises, and how many bytes it had consumed from the buffer
    by then.  A [Packet] object is truthy; [Ok None] stands for a falsy
    return, which [read_packet] tests for. *)
Class McPacket := {
  encode : Packet → CompState → Z → list byte;
  decode : Z * Z → CompState → list byte → Res (option Packet) * nat;
}.

Section Net.

Context `{McCrypto, McData, McPacket}.

(** [class NetCore].  The attributes [sock] and [event] alias the plugin's
    socket wrapper and the notification bus, which live in [World]. *)
Record NetCore := {
  host : option string;
  port : option Z;
  connected : bool;
  encrypted : bool;
  proto_state : Z;
  comp_state : CompState;
  comp_threshold : Z;
  sbuff : list byte;
  rbuff : BoundBuffer;
  cipher : attr Cipher;
}.

Definition set_host v (n : NetCore) : NetCore :=
  {| host := v; port := port n; connected := connected n;
     encrypted := encrypted n; proto_state := proto_state n;
     comp_state := comp_state n; comp_threshold := comp_threshold n;
     sbuff := sbuff n; rbuff := rbuff n; cipher := cipher n |}.
Definition set_port v (n : NetCore) : NetCore :=
  {| host := host n; port := v; connected := connected n;
     encrypted := encrypted n; proto_state := proto_state n;
     comp_state := comp_state n; comp_threshold := comp_threshold n;
     sbuff := sbuff n; rbuff := rbuff n; cipher := cipher n |}.
Definition set_connected v (n : NetCore) : NetCore :=
  {| host := host n; port := port n; connected := v;
     encrypted := encrypted n; proto_state := proto_state n;
     comp_state := comp_state n; comp_threshold := comp_threshold n;
     sbuff := sbuff n; rbuff := rbuff n; cipher := cipher n |}.
Definition set_encrypted v (n : NetCore) : NetCore :=
  {| host := host n; port := port n; connected := connected n;
     encrypted := v; proto_state := proto_state n;
     comp_state := comp_state n; comp_threshold := comp_threshold n;
     sbuff := sbuff n; rbuff := rbuff n; cipher := cipher n |}.
Definition set_proto_state_attr v (n : NetCore) : NetCore :=
  {| host := host n; port := port n; connected := connected n;
     encrypted := encrypted n; proto_state := v;
     comp_state := comp_state n; comp_threshold := comp_threshold n;
     sbuff := sbuff n; rbuff := rbuff n; cipher := cipher n |}.
Definition set_comp_state_attr v (n : NetCore) : NetCore :=
  {| host := host n; port := port n; connected := connected n;
     encrypted := encrypted n; proto_state := proto_state n;
     comp_state := v; comp_threshold := comp_threshold n;
     sbuff := sbuff n; rbuff := rbuff n; cipher := cipher n |}.
Definition set_comp_threshold v (n : NetCore) : NetCore :=
  {| host := host n; port := port n; connected := connected n;
     encrypted := encrypted n; proto_state := proto_state n;
     comp_state := comp_state n; comp_threshold := v;
     sbuff := sbuff n; rbuff := rbuff n; cipher := cipher n |}.
Definition set_sbuff v (n : NetCore) : NetCore :=
  {| host := host n; port := port n; connected := connected n;
     encrypted := encrypted n; proto_state := proto_state n;
     comp_state := comp_state n; comp_threshold := comp_threshold n;
     sbuff := v; rbuff := rbuff n; cipher := cipher n |}.
Definition set_rbuff v (n : NetCore) : NetCore :=
  {| host := host n; port := port n; connected := connected n;
     encrypted := encrypted n; proto_state := proto_state n;
     comp_state := comp_state n; comp_threshold := comp_threshold n;
     sbuff := sbuff n; rbuff := v; cipher := cipher n |}.
Definition set_cipher v (n : NetCore) : NetCore :=
  {| host := host n; port := port n; connected := connected n;
     encrypted := encrypted n; proto_state := proto_state n;
     comp_state := comp_state n; comp_threshold := comp_threshold n;
     sbuff := sbuff n; rbuff := rbuff n; cipher := v |}.

(** [NetCore.__init__], run on an object [self]: it assigns every
    attribute of the class except [cipher], which it never mentions. *)
Definition NetCore_init (self : NetCore) : NetCore :=
  {| host := None; port := None; connected := false; encrypted := false;
     proto_state := HANDSHAKE_STATE; comp_state := PROTO_COMP_OFF;
     comp_threshold := (-1)%Z; sbuff := [];
     rbuff := BoundBuffer.new; cipher := cipher self |}.

(** [NetCore(sock, event)]: [__init__] on a new object, which has no
    attribute yet. *)
Definition NetCore_new : NetCore :=
  {| host := None; port := None; connected := false; encrypted := false;
     proto_state := HANDSHAKE_STATE; comp_state := PROTO_COMP_OFF;
     comp_threshold := (-1)%Z; sbuff := [];
     rbuff := BoundBuffer.new; cipher := Unset |}.

(** [class NetPlugin]: the two settings it reads, and the attribute
    [sending] that [handleSEND] assigns on the plugin itself. *)
Record NetPlugin := {
  bufsize : nat;
  sock_quit : bool;
  plugin_sending : attr bool;
}.

(** Everything the methods of the file can read or change. *)
Record World := {
  net : NetCore;
  ssock : SelectSocket;
  plugin : NetPlugin;
  events : list (ename * payload);
  kill_event : bool;
  stdout : list (list payload);
}.

Definition set_net v (w : World) : World :=
  {| net := v; ssock := ssock w; plugin := plugin w; events := events w;
     kill_event := kill_event w; stdout := stdout w |}.
Definition set_ssock v (w : World) : World :=
  {| net := net w; ssock := v; plugin := plugin w; events := events w;
     kill_event := kill_event w; stdout := stdout w |}.
Definition set_plugin v (w : World) : World :=
  {| net := net w; ssock := ssock w; plugin := v; events := events w;
     kill_event := kill_event w; stdout := stdout w |}.
Definition set_events v (w : World) : World :=
  {| net := net w; ssock := ssock w; plugin := plugin w; events := v;
     kill_event := kill_event w; stdout := stdout w |}.
Definition set_kill_event v (w : World) : World :=
  {| net := net w; ssock := ssock w; plugin := plugin w; events := events w;
     kill_event := v; stdout := stdout w |}.
Definition set_stdout v (w : World) : World :=
  {| net := net w; ssock := ssock w; plugin := plugin w; events := events w;
     kill_event := kill_event w; stdout := v |}.

(** [NetPlugin.__init__]: the state right after the plugin is loaded. *)
Definition NetPlugin_init (bufsize0 : nat) (sock_quit0 : bool) : World :=
  {| net := NetCore_new; ssock := SelectSocket.init;
     plugin := {| bufsize := bufsize0; sock_quit := sock_quit0;
                  plugin_sending := Unset |};
     events := []; kill_event := false; stdout := [] |}.

(** ** The monad of methods *)

Definition M (A : Type) : Type := World → Res A * World.

Definition ret {A} (a : A) : M A := λ w, (Ok a, w).

Definition bind {A B} (f : A → M B) (m : M A) : M B :=
  λ w, match m w with
       | (Ok a, w') => f a w'
       | (Raise e, w') => (Raise e, w')
       end.

#[global] Instance M_ret : MRet M := @ret.
#[global] Instance M_bind : MBind M := @bind.

Definition raise {A} (e : exn) : M A := λ w, (Raise e, w).
Definition get : M World := λ w, (Ok w, w).
Definition modify (f : World → World) : M unit := λ w, (Ok tt, f w).
Definition modify_net (f : NetCore → NetCore) : M unit :=
  modify (λ w, set_net (f (net w)) w).
Definition modify_ssock (f : SelectSocket → SelectSocket) : M unit :=
  modify (λ w, set_ssock (f (ssock w)) w).

(** [print(args...)] *)
Definition print (args : list payload) : M unit :=
  modify (λ w, set_stdout (stdout w ++ [args]) w).

Definition modify_plugin (f : NetPlugin → NetPlugin) : M unit :=
  modify (λ w, set_plugin (f (plugin w)) w).

(** [try: body except C as e: handler]: [catch] selects the exceptions of
    class [C]; any other exception keeps propagating. *)
Definition try_except {A} (body : M A) (catch : exn → option (M A)) : M A :=
  λ w, match body w with
       | (Raise e, w') =>
           match catch e with
           | Some handler => handler w'
           | None => (Raise e, w')
           end
       | r => r
       end.

(** The outcome of a system call, as a computation. *)
Definition syscall {A} (os : Res A) : M A := λ w, (os, w).

(** ** The notification bus

    Modelled from the spec: the [Event] plugin is an outside collaborator.
    "Synchronous, in-process delivery": [emit] records the notification and
    runs the handlers registered under its name before it returns.  The only
    handlers are those [NetPlugin.__init__] registers; a notification that
    none of them is registered for is recorded and nothing else happens. *)
Definition handler : Type := ename → payload → M unit.

#[global] Instance ename_eq_dec : EqDecision ename.
Proof. solve_decision. Defined.

Definition record_event (name : ename) (data : payload) : M unit :=
  modify (λ w, set_events (events w ++ [(name, data)]) w).

Fixpoint run_handlers (table : list (string * handler))
    (name : ename) (data : payload) : M unit :=
  match table with
  | [] => mret tt
  | (n, h) :: table' =>
      (if decide (name = Name n) then h name data else mret tt);;
      run_handlers table' name data
  end.

Definition emit_to (table : list (string * handler))
    (name : ename) (data : payload) : M unit :=
  record_event name data;; run_handlers table name data.

(** Notifications no handler of the plugin is registered for: ['connect'],
    ['disconnect'], the state names ([..._STATE]) and [ident] tuples. *)
Definition emit : ename → payload → M unit := emit_to [].

(** [event.kill()]: ask the event loop to stop. *)
Definition kill : M unit := modify (set_kill_event true).

(** ** [SelectSocket.poll] *)

(** What the operating system answers to one [select] call. *)
Inductive select_result :=
| Readiness (r w x : bool)
| SelectFails (msg : string).

(** The argument list [slist]: whether the socket is in each of the three
    lists, and the timeout when one is appended. *)
Record slist := {
  in_rlist : bool;
  in_wlist : bool;
  in_xlist : bool;
  timeout_arg : option Z;
}.

(** [select.select( *slist)]: the lists returned are sub-lists of the lists
    given; each is represented by whether it is non-empty. *)
Definition select_select (os : select_result) (sl : slist)
    : M (bool * bool * bool) :=
  match os with
  | Readiness r w x =>
      mret (r && in_rlist sl, w && in_wlist sl, x && in_xlist sl)
  | SelectFails msg => raise (OSError msg)
  end.

Definition poll (timeout : Z) (os : select_result) : M (list string) :=
  w ← get;
  wl ← (if sending (ssock w)
        then modify_ssock (set_sending false);; mret true
        else mret false);
  let sl := {| in_rlist := true; in_wlist := wl; in_xlist := true;
               timeout_arg := if (0 <=? timeout)%Z then Some timeout
                              else None |} in
  ready ← try_except (select_select os sl)
            (λ e, match e with
                  | OSError msg =>
                      Some (print [PStr msg];; mret (false, false, false))
                  | _ => None
                  end);
  let '(rlist, wlist, xlist) := ready in
  mret ((if rlist : bool then ["SOCKET_RECV"] else []) ++
        (if wlist : bool then ["SOCKET_SEND"] else []) ++
        (if xlist : bool then ["SOCKET_ERR"] else [])).

(** ** [NetCore] *)

(** [NetCore.connect]; [os] is what [sock.connect] does. *)
Definition connect (host0 : string) (port0 : Z) (os : Res unit) : M unit :=
  modify_net (set_host (Some host0));;
  modify_net (set_port (Some port0));;
  try_except
    (print [PStr "Attempting to connect to host:"; PStr host0;
            PStr "port:"; PVal (VInt port0)];;
     modify_ssock (λ s, set_sock (setblocking true (sock s)) s);;
     syscall os;;
     modify_ssock (λ s, set_sock (set_peer (Some (host0, port0)) (sock s)) s);;
     modify_ssock (λ s, set_sock (setblocking false (sock s)) s);;
     modify_net (set_connected true);;
     emit (Name "connect") (PAddr host0 port0);;
     print [PStr "Connected to host:"; PStr host0;
            PStr "port:"; PVal (VInt port0)])
    (λ e, match e with
          | OSError msg => Some (print [PStr "Error on Connect:"; PStr msg])
          | _ => None
          end).

(** [NetCore.set_proto_state] *)
Definition set_proto_state (state : Z) : M unit :=
  modify_net (set_proto_state_attr state);;
  match state_lookup state with
  | Some s => emit (Name (s +:+ "_STATE")) PNone
  | None => raise (KeyError (VInt state))
  end.

(** [NetCore.set_comp_state] *)
Definition set_comp_state (threshold : Z) : M unit :=
  modify_net (set_comp_threshold threshold);;
  if (0 <=? threshold)%Z
  then modify_net (set_comp_state_attr PROTO_COMP_ON)
  else mret tt.

(** [NetCore.enable_crypto] *)
Definition enable_crypto (secret_key : list byte) : M unit :=
  modify_net (set_cipher (Obj (AESCipher secret_key)));;
  modify_net (set_encrypted true).

(** [NetCore.disable_crypto] *)
Definition disable_crypto : M unit :=
  modify_net (set_cipher PyNone);;
  modify_net (set_encrypted false).

(** [NetCore.reset], and [disconnect], which is the same function. *)
Definition reset : M unit :=
  modify_net (set_connected false);;
  modify_ssock SelectSocket.reset;;
  modify_net NetCore_init.

Definition disconnect : M unit := reset.

(** [self.cipher.encrypt(data)] and [self.cipher.decrypt(data)]: the
    attribute lookup fails when [cipher] was never assigned or is [None]. *)
Definition cipher_call (method : string)
    (f : Cipher → list byte → list byte * Cipher) (bs : list byte)
    : M (list byte) :=
  w ← get;
  match cipher (net w) with
  | Obj c =>
      modify_net (set_cipher (Obj (f c bs).2));; mret (f c bs).1
  | PyNone => raise (AttributeError method)
  | Unset => raise (AttributeError "cipher")
  end.

(** ** [NetPlugin]: the handlers of in-band control packets *)

(** [packet.data[key]], where [packet] is what the notification carries. *)
Definition packet_field (packet : payload) (key : string) : M value :=
  match packet with
  | PPacket p =>
      match data p !! key with
      | Some v => mret v
      | None => raise (KeyError (VStr key))
      end
  | _ => raise (AttributeError "data")
  end.

(** The fields [next_state] and [threshold] are integers in every packet
    table; another kind of value is a type error of the handler. *)
Definition int_field (packet : payload) (key : string) : M Z :=
  v ← packet_field packet key;
  match v with
  | VInt z => mret z
  | _ => raise (TypeError key)
  end.

(** [NetPlugin.handle_handshake] *)
Definition handle_handshake : handler := λ name packet,
  state ← int_field packet "next_state";
  set_proto_state state.

(** [NetPlugin.handle_login_success] *)
Definition handle_login_success : handler := λ name packet,
  set_proto_state PLAY_STATE.

(** [NetPlugin.handle_comp] *)
Definition handle_comp : handler := λ name packet,
  threshold ← int_field packet "threshold";
  set_comp_state threshold.

(** [NetPlugin.handle_disconnect] *)
Definition handle_disconnect : handler := λ name packet,
  reason ← packet_field packet "reason";
  print [PStr "Disconnected:"; PVal reason];;
  emit (Name "disconnect") (PVal reason).

(** The packet handlers [NetPlugin.__init__] registers, in its order. *)
Definition packet_handlers : list (string * handler) :=
  [ ("PLAY<Disconnect", handle_disconnect);
    ("HANDSHAKE>Handshake", handle_handshake);
    ("LOGIN<Login Success", handle_login_success);
    ("LOGIN<Set Compression", handle_comp);
    ("PLAY<Set Compression", handle_comp) ].

(** A packet's notification, under [ident] or [str_ident].  The names of
    [mcdata.packet_idents] are packet names ([STATE<Name], [STATE>Name]),
    never one of the driver's names ([event_tick], [SOCKET_...]), so these
    are the handlers it can reach. *)
Definition emit_packet : ename → payload → M unit := emit_to packet_handlers.

(** ** [NetCore]: the frame codec *)

(** [NetCore.push] *)
Definition push (packet : Packet) : M unit :=
  w ← get;
  let frame := encode packet (comp_state (net w)) (comp_threshold (net w)) in
  out ← (if encrypted (net w) then cipher_call "encrypt" encrypt frame
         else mret frame);
  modify_net (λ n, set_sbuff (sbuff n ++ out) n);;
  emit_packet (Ident (ident packet)) (PPacket packet);;
  emit_packet (Name (str_ident packet)) (PPacket packet);;
  modify_ssock (set_sending true).

Definition modify_rbuff (f : BoundBuffer → BoundBuffer) : M unit :=
  modify_net (λ n, set_rbuff (f (rbuff n)) n).

(** [Packet(ident = (proto_state, SERVER_TO_CLIENT)).decode(rbuff,
    comp_state)]: the bytes it consumed are gone from the unread part
    whether it returns or raises. *)
Definition decode_rbuff : M (option Packet) := λ w,
  let n := net w in
  let out := decode (proto_state n, SERVER_TO_CLIENT) (comp_state n)
               (BoundBuffer.unread (rbuff n)) in
  (out.1, set_net (set_rbuff (BoundBuffer.advance out.2 (rbuff n)) n) w).

(** The two notifications of a decoded packet. *)
Definition emit_decoded (packet : Packet) : M unit :=
  emit_packet (Ident (ident packet)) (PPacket packet);;
  emit_packet (Name (str_ident packet)) (PPacket packet).

(** The [while True:] loop of [read_packet].  [fuel] bounds the number of
    iterations; [None] means the bound was reached with the loop still
    running. *)
Fixpoint read_loop (fuel : nat) (w : World) : option (Res unit * World) :=
  match fuel with
  | 0 => None
  | S fuel' =>
      match (modify_rbuff BoundBuffer.save;; decode_rbuff) w with
      | (Raise BufferUnderflowException, w') =>
          Some (modify_rbuff BoundBuffer.revert w')
      | (Raise e, w') => Some (Raise e, w')
      | (Ok None, w') => read_loop fuel' w'
      | (Ok (Some packet), w') =>
          match emit_decoded packet w' with
          | (Ok _, w'') => read_loop fuel' w''
          | (Raise e, w'') => Some (Raise e, w'')
          end
      end
  end.

(** [NetCore.read_packet] *)
Definition read_packet (fuel : nat) (data : list byte) (w : World)
    : option (Res unit * World) :=
  match (plain ← (if encrypted (net w)
                  then cipher_call "decrypt" decrypt data
                  else mret data);
         modify_rbuff (BoundBuffer.append plain)) w with
  | (Ok _, w') => read_loop fuel w'
  | (Raise e, w') => Some (Raise e, w')
  end.

(** ** [NetPlugin]: the driver's handlers *)

(** [NetPlugin.handleERR] *)
Definition handleERR : handler := λ name data,
  reset;;
  print [PStr "Socket Error:"; data];;
  emit (Name "disconnect") data;;
  w ← get;
  if sock_quit (plugin w) && negb (kill_event w) then kill else mret tt.

(** [NetPlugin.handleHUP] *)
Definition handleHUP : handler := λ name data,
  reset;;
  print [PStr "Socket has hung up"];;
  emit (Name "disconnect") (PStr "Socket Hung Up");;
  w ← get;
  if sock_quit (plugin w) && negb (kill_event w) then kill else mret tt.

(** The handlers the two notifications of [handleRECV] and [handleSEND]
    reach. *)
Definition socket_handlers : list (string * handler) :=
  [ ("SOCKET_ERR", handleERR);
    ("SOCKET_HUP", handleHUP) ].

Definition emit_socket : ename → payload → M unit := emit_to socket_handlers.

(** [NetPlugin.handleRECV]; [os] is what [sock.recv(bufsize)] does. *)
Definition handleRECV (fuel : nat) (os : Res (list byte))
    (name : ename) (data : payload) (w : World) : option (Res unit * World) :=
  if connected (net w) then
    match
      match os with
      | Raise e => Some (Raise e, w)
      | Ok [] => Some (emit_socket (Name "SOCKET_HUP") PNone w)
      | Ok received => read_packet fuel received w
      end
    with
    | Some (Raise (OSError msg), w') =>
        Some (emit_socket (Name "SOCKET_ERR") (PExn (OSError msg)) w')
    | out => out
    end
  else Some (Ok tt, w).

Definition set_plugin_sending v (p : NetPlugin) : NetPlugin :=
  {| bufsize := bufsize p; sock_quit := sock_quit p; plugin_sending := v |}.

(** [NetPlugin.handleSEND]; [os] is what [sock.send(sbuff)] does: the number
    of bytes the system accepted, or an error.  [self.sending] is an
    attribute of the plugin; the socket wrapper's flag is [self.sock.sending]. *)
Definition handleSEND (os : Res nat) : handler := λ name data,
  w ← get;
  if connected (net w) then
    try_except
      (sent ← syscall os;
       modify_net (λ n, set_sbuff (drop sent (sbuff n)) n);;
       w' ← get;
       match sbuff (net w') with
       | [] => mret tt
       | _ :: _ => modify_plugin (set_plugin_sending (Obj true))
       end)
      (λ e, match e with
            | OSError msg =>
                Some (print [PExn e];;
                      emit_socket (Name "SOCKET_ERR") (PExn e))
            | _ => None
            end)
  else mret tt.

(** Every name [NetPlugin.__init__] registers a handler under. *)
Definition registered_names : list string :=
  [ "event_tick"; "SOCKET_RECV"; "SOCKET_SEND"; "SOCKET_ERR"; "SOCKET_HUP";
    "PLAY<Disconnect"; "HANDSHAKE>Handshake"; "LOGIN<Login Success";
    "LOGIN<Set Compression"; "PLAY<Set Compression" ].

(** ** Running a method *)

(** The world a computation leaves, whatever its outcome. *)
Definition exec {A} (m : M A) (w : World) : World := (m w).2.

(** The outcome of a computation. *)
Definition outcome {A} (m : M A) (w : World) : Res A := (m w).1.

(** ** Invariants of the data model *)

(** "[compressionState = ON ⟺ compressionThreshold ≥ 0]" *)
Definition comp_invariant (n : NetCore) : Prop :=
  comp_state n = PROTO_COMP_ON ↔ (0 ≤ comp_threshold n)%Z.

(** "[cipher] is [Some] iff [encrypted = true]" *)
Definition cipher_invariant (n : NetCore) : Prop :=
  is_obj (cipher n) = encrypted n.

(** ** The error and hang-up action, in the spec's words

    "Errored / Hung-up → reset the Protocol Engine, emit a disconnect
    notification carrying the cause, and optionally terminate the whole event
    loop if configured to do so on socket failure." *)
Definition spec_socket_failure (cause : payload) : M unit :=
  reset;;
  emit (Name "disconnect") cause;;
  w ← get;
  if sock_quit (plugin w) then kill else mret tt.

(** Two runs have the same effects when they end the same way in worlds
    that differ at most in what was printed. *)
Definition same_effects (x y : Res unit * World) : Prop :=
  x.1 = y.1 ∧ set_stdout [] x.2 = set_stdout [] y.2.

(** A world with the two compression attributes replaced. *)
Definition with_comp (c : CompState) (t : Z) (w : World) : World :=
  set_net (set_comp_state_attr c (set_comp_threshold t (net w))) w.

(** [w'] differs from [w] at most in [comp_state] and [comp_threshold]. *)
Definition only_comp_changed (w w' : World) : Prop :=
  with_comp (comp_state (net w)) (comp_threshold (net w)) w' = w.

(** A handler invoked by the bus for each packet of a list, one
    notification after the other. *)
Definition handle_all (h : handler) (name : ename) (packets : list Packet)
    (w : World) : World :=
  foldl (λ w p, exec (h name (PPacket p)) w) w packets.

(** ** The decode path seen from outside *)

(** A world with the receive buffer, the cipher and the [encrypted] flag
    replaced: the attributes no packet handler reads or writes. *)
Definition with_wire (b : BoundBuffer) (c : attr Cipher) (e : bool)
    (w : World) : World :=
  set_net (set_encrypted e (set_cipher c (set_rbuff b (net w)))) w.

Definition with_rbuff (b : BoundBuffer) (w : World) : World :=
  set_net (set_rbuff b (net w)) w.

(** What the next parse attempt at [w] would do. *)
Definition next_attempt (w : World) : Res (option Packet) * nat :=
  decode (proto_state (net w), SERVER_TO_CLIENT) (comp_state (net w))
    (BoundBuffer.unread (rbuff (net w))).

(** Whether [except utils.BufferUnderflowException] catches [e]. *)
Definition is_underflow (e : exn) : bool :=
  match e with BufferUnderflowException => true | _ => false end.

(** [read_packet(part1)] followed by [read_packet(part2)]: an exception of
    the first call ends the sequence. *)
Definition read_twice (fuel : nat) (part1 part2 : list byte) (w : World)
    : option (Res unit * World) :=
  match read_packet fuel part1 w with
  | Some (Ok _, w') => read_packet fuel part2 w'
  | out => out
  end.

(** Two runs emitted the same messages in the same order: they ended the
    same way with the same record of notifications -- and in the same
    world, when they returned normally. *)
Definition same_messages (x y : Res unit * World) : Prop :=
  x.1 = y.1 ∧ events x.2 = events y.2 ∧ (x.1 = Ok tt → x.2 = y.2).

(** A computation that neither reads nor writes the receive buffer, the
    cipher and the [encrypted] flag. *)
Definition wire_frame {A} (m : M A) : Prop :=
  ∀ b c e w, m (with_wire b c e w) = ((m w).1, with_wire b c e (m w).2).

(** The world after [rbuff.append(ext)]. *)
Definition feed (ext : list byte) (w : World) : World :=
  with_rbuff (BoundBuffer.append ext (rbuff (net w))) w.

Definition with_cipher (c : attr Cipher) (w : World) : World :=
  set_net (set_cipher c (net w)) w.

(** How a run that ended ended. *)
Definition outcome_of (out : option (Res unit * World)) : option (Res unit) :=
  fst <$> out.

(** ** [NetPlugin.tick] *)

(** What the operating system answers during one tick: to the [select] of
    [poll], to the [recv] of [handleRECV] and to the [send] of
    [handleSEND].  Each flag is emitted at most once in a tick, so each
    call is made at most once. *)
Record os_answers := {
  select_answer : select_result;
  recv_answer : Res (list byte);
  send_answer : Res nat;
}.

(** [event.emit(flag)] for a readiness flag: the handlers registered for
    the four socket notifications. *)
Definition emit_flag (fuel : nat) (os : os_answers) (flag : string)
    (w : World) : option (Res unit * World) :=
  let w' := exec (record_event (Name flag) PNone) w in
  if decide (flag = "SOCKET_RECV")
  then handleRECV fuel (recv_answer os) (Name flag) PNone w'
  else if decide (flag = "SOCKET_SEND")
  then Some (handleSEND (send_answer os) (Name flag) PNone w')
  else if decide (flag = "SOCKET_ERR")
  then Some (handleERR (Name flag) PNone w')
  else if decide (flag = "SOCKET_HUP")
  then Some (handleHUP (Name flag) PNone w')
  else Some (Ok tt, w').

(** [for flag in flags: self.event.emit(flag)] *)
Fixpoint emit_flags (fuel : nat) (os : os_answers) (flags : list string)
    (w : World) : option (Res unit * World) :=
  match flags with
  | [] => Some (Ok tt, w)
  | flag :: flags' =>
      match emit_flag fuel os flag w with
      | Some (Ok _, w') => emit_flags fuel os flags' w'
      | out => out
      end
  end.

(** What a tick did besides changing the world: it polled, or it slept for
    a number of seconds. *)
Inductive tick_effect :=
| Polled
| Slept (seconds : Z).

(** [NetPlugin.tick]; [timeout] is what [timer.get_timeout()] returns.
    [time.sleep] refuses a negative length. *)
Definition tick (fuel : nat) (timeout : Z) (os : os_answers)
    (name : ename) (data : payload) (w : World)
    : option (Res tick_effect * World) :=
  if connected (net w) then
    match poll timeout (select_answer os) w with
    | (Ok flags, w') =>
        match emit_flags fuel os flags w' with
        | Some (Ok _, w'') => Some (Ok Polled, w'')
        | Some (Raise e, w'') => Some (Raise e, w'')
        | None => None
        end
    | (Raise e, w') => Some (Raise e, w')
    end
  else if decide (timeout = (-1)%Z) then Some (Ok (Slept 1), w)
  else if (timeout <? 0)%Z
  then Some (Raise (OtherError "ValueError"
                      "sleep length must be non-negative"), w)
  else Some (Ok (Slept timeout), w).

(** ** What a computation leaves alone *)

(** What no packet handler and no decoding changes: the socket wrapper, the
    plugin, the kill flag, and the connection's address, [connected] flag
    and send buffer. *)
Definition outbound (w : World)
    : SelectSocket * NetPlugin * bool
      * (option string * option Z * bool * list byte) :=
  (ssock w, plugin w, kill_event w,
   (host (net w), port (net w), connected (net w), sbuff (net w))).

(** A computation that leaves the value of [f] as it finds it. *)
Definition preserves {A B} (f : World → B) (m : M A) : Prop :=
  ∀ w, f (m w).2 = f w.

End Net.

(** * A sample of the outside collaborators

    Modelled from the spec: [mcdata], [mccrypto] and [mcpacket] are not part
    of the sources at hand.  The instances below follow what the spec says
    of them -- four protocol states, a stream cipher whose output is as long
    as its input, the frame layout "[varint totalLength][if compression-on:
    varint uncompressedLength ...][message-id, message-fields]" -- over a
    small packet table, so that the engine can be run on concrete bytes. *)
Module Sample.

Definition mcdata : McData := {|
  HANDSHAKE_STATE := 0;
  STATUS_STATE := 1;
  LOGIN_STATE := 2;
  PLAY_STATE := 3;
  SERVER_TO_CLIENT := 0;
  state_lookup := λ state,
    if decide (state = 0%Z) then Some "HANDSHAKE"
    else if decide (state = 1%Z) then Some "STATUS"
    else if decide (state = 2%Z) then Some "LOGIN"
    else if decide (state = 3%Z) then Some "PLAY"
    else None;
|}.

Definition CLIENT_TO_SERVER : Z := 1.

(** *** Cipher: every byte is combined with the first byte of the key *)

Definition byte_xor (a b : byte) : byte :=
  let '(a0, (a1, (a2, (a3, (a4, (a5, (a6, a7))))))) := Byte.to_bits a in
  let '(b0, (b1, (b2, (b3, (b4, (b5, (b6, b7))))))) := Byte.to_bits b in
  Byte.of_bits (xorb a0 b0, (xorb a1 b1, (xorb a2 b2, (xorb a3 b3,
               (xorb a4 b4, (xorb a5 b5, (xorb a6 b6, xorb a7 b7))))))).

Definition mccrypto : McCrypto := {|
  Cipher := byte;
  AESCipher := λ key, default "000"%byte (head key);
  encrypt := λ c bs, (map (byte_xor c) bs, c);
  decrypt := λ c bs, (map (byte_xor c) bs, c);
|}.

(** *** Variable-length integers *)

Inductive varint_result :=
| VarintOk (v : N) (used : nat)
| VarintUnderflow
| VarintTooLong.

(** At most [n] bytes, seven bits each, least significant group first; the
    top bit of a byte says that another byte follows. *)
Fixpoint unpack_varint (n : nat) (shift acc : N) (bs : list byte)
    : varint_result :=
  match n with
  | 0 => VarintTooLong
  | S n' =>
      match bs with
      | [] => VarintUnderflow
      | b :: bs' =>
          let v := Byte.to_N b in
          let acc' := N.lor acc (N.shiftl (N.land v 127) shift) in
          if N.testbit v 7 then
            match unpack_varint n' (shift + 7) acc' bs' with
            | VarintOk r used => VarintOk r (S used)
            | other => other
            end
          else VarintOk acc' 1
      end
  end.

Definition byte_of_N (v : N) : byte := default "000"%byte (Byte.of_N v).

Fixpoint pack_varint (n : nat) (v : N) : list byte :=
  match n with
  | 0 => []
  | S n' =>
      if (N.shiftr v 7 =? 0)%N then [byte_of_N (N.land v 127)]
      else byte_of_N (N.land v 127 + 128) :: pack_varint n' (N.shiftr v 7)
  end.

(** A varint is a 32-bit two's complement number. *)
Definition to_signed (v : N) : Z :=
  let z := (Z.of_N v mod 2 ^ 32)%Z in
  if (z <? 2 ^ 31)%Z then z else (z - 2 ^ 32)%Z.

Definition to_unsigned (z : Z) : N := Z.to_N (z mod 2 ^ 32).

(** *** Packet table *)

Inductive field_type := FVarint | FString.

Definition packet_table (ident : Z * Z * Z)
    : option (string * list (string * field_type)) :=
  if decide (ident = (0, 1, 0)%Z) then
    Some ("HANDSHAKE>Handshake",
          [("protocol_version", FVarint); ("next_state", FVarint)])
  else if decide (ident = (2, 0, 2)%Z) then
    Some ("LOGIN<Login Success", [("uuid", FString); ("username", FString)])
  else if decide (ident = (2, 0, 3)%Z) then
    Some ("LOGIN<Set Compression", [("threshold", FVarint)])
  else if decide (ident = (3, 0, 0)%Z) then
    Some ("PLAY<Keep Alive", [("keep_alive", FVarint)])
  else if decide (ident = (3, 0, 64)%Z) then
    Some ("PLAY<Disconnect", [("reason", FString)])
  else if decide (ident = (3, 0, 70)%Z) then
    Some ("PLAY<Set Compression", [("threshold", FVarint)])
  else None.

Fixpoint decode_fields (fields : list (string * field_type))
    (bs : list byte) : option (gmap string value * list byte) :=
  match fields with
  | [] => Some (∅, bs)
  | (name, FVarint) :: fields' =>
      match unpack_varint 5 0 0 bs with
      | VarintOk v used =>
          rest ← decode_fields fields' (drop used bs);
          Some (<[name := VInt (to_signed v)]> rest.1, rest.2)
      | _ => None
      end
  | (name, FString) :: fields' =>
      match unpack_varint 5 0 0 bs with
      | VarintOk len used =>
          let body := drop used bs in
          if decide (length body < N.to_nat len) then None
          else
            rest ← decode_fields fields' (drop (N.to_nat len) body);
            Some (<[name := VBytes (take (N.to_nat len) body)]> rest.1, rest.2)
      | _ => None
      end
  end.

Fixpoint encode_fields (fields : list (string * field_type))
    (data : gmap string value) : list byte :=
  match fields with
  | [] => []
  | (name, _) :: fields' =>
      match data !! name with
      | Some (VInt z) => pack_varint 5 (to_unsigned z)
      | Some (VBytes b) => pack_varint 5 (N.of_nat (length b)) ++ b
      | _ => []
      end ++ encode_fields fields' data
  end.

(** *** Frames *)

Definition decode_failure (what : string) : Res (option Packet) :=
  Raise (OtherError "PacketDecodeFailure" what).

(** The body of a frame, once all its bytes are there.  The sample has no
    inflate: a body announced as compressed is a decode failure. *)
Definition decode_body (id : Z * Z) (cs : CompState) (body : list byte)
    : Res (option Packet) :=
  let plain :=
    match cs with
    | PROTO_COMP_OFF => Some body
    | PROTO_COMP_ON =>
        match unpack_varint 5 0 0 body with
        | VarintOk 0 used => Some (drop used body)
        | _ => None
        end
    end in
  match plain with
  | None => decode_failure "compressed"
  | Some bs =>
      match unpack_varint 5 0 0 bs with
      | VarintOk pid used =>
          let ident := (id.1, id.2, Z.of_N pid) in
          match packet_table ident with
          | None => Raise (KeyError (VInt (Z.of_N pid)))
          | Some (name, fields) =>
              match decode_fields fields (drop used bs) with
              | Some (data, []) =>
                  Ok (Some {| ident := ident; str_ident := name;
                              data := data |})
              | _ => decode_failure name
              end
          end
      | _ => decode_failure "ident"
      end
  end.

(** [Packet.decode]: the length prefix, then as many bytes as it says.  A
    buffer that ends before either is complete is an underflow. *)
Definition sample_decode (id : Z * Z) (cs : CompState) (bs : list byte)
    : Res (option Packet) * nat :=
  match unpack_varint 5 0 0 bs with
  | VarintUnderflow => (Raise BufferUnderflowException, length bs)
  | VarintTooLong => (decode_failure "length", 5)
  | VarintOk len used =>
      let rest := drop used bs in
      if decide (length rest < N.to_nat len)
      then (Raise BufferUnderflowException, length bs)
      else (decode_body id cs (take (N.to_nat len) rest), used + N.to_nat len)
  end.

(** [Packet.encode]: the compression-aware layout when compression is on,
    never compressed. *)
Definition sample_encode (packet : Packet) (cs : CompState) (threshold : Z)
    : list byte :=
  let body :=
    pack_varint 5 (Z.to_N (ident packet).2) ++
    match packet_table (ident packet) with
    | Some (_, fields) => encode_fields fields (data packet)
    | None => []
    end in
  let body :=
    match cs with
    | PROTO_COMP_OFF => body
    | PROTO_COMP_ON => pack_varint 5 0 ++ body
    end in
  pack_varint 5 (N.of_nat (length body)) ++ body.

Definition mcpacket : McPacket := {|
  encode := sample_encode;
  decode := sample_decode;
|}.

(** *** Worlds to run the engine in *)

(** A plugin just loaded, with the sample collaborators. *)
Definition w0 : World (H := mccrypto) :=
  NetPlugin_init (H := mccrypto) (H0 := mcdata) 4096 true.

(** [w0] after the handshake: connected, in protocol state LOGIN. *)
Definition w_login : World (H := mccrypto) :=
  set_net (set_proto_state_attr 2 (set_connected true (net w0))) w0.

(** The frame of [LOGIN<Set Compression] with threshold 64. *)
Definition frame_set_compression : list byte :=
  ["002"; "003"; "064"]%byte.

(** The frame of [LOGIN<Login Success] with empty strings, in the layout
    used once compression is on. *)
Definition frame_login_success : list byte :=
  ["004"; "000"; "002"; "000"; "000"]%byte.

(** A frame that announces five bytes, of which one has arrived. *)
Definition frame_partial : list byte := ["005"; "003"]%byte.

(** A complete frame with a packet id that is in no table. *)
Definition frame_unknown : list byte := ["001"; "127"]%byte.

(** A handshake packet that asks for LOGIN. *)
Definition handshake_login : Packet := {|
  ident := (0, 1, 0)%Z;
  str_ident := "HANDSHAKE>Handshake";
  data := {[ "protocol_version" := VInt 47; "next_state" := VInt 2 ]};
|}.

(** A handshake packet that asks for a state outside [state_lookup]. *)
Definition handshake_unknown : Packet := {|
  ident := (0, 1, 0)%Z;
  str_ident := "HANDSHAKE>Handshake";
  data := {[ "protocol_version" := VInt 47; "next_state" := VInt 9 ]};
|}.

(** A handshake packet built without its [next_state] field. *)
Definition handshake_incomplete : Packet := {|
  ident := (0, 1, 0)%Z;
  str_ident := "HANDSHAKE>Handshake";
  data := {[ "protocol_version" := VInt 47 ]};
|}.

(** The packets of three frames, as the sample decoder returns them. *)
Definition packet_set_compression : Packet := {|
  ident := (2, 0, 3)%Z;
  str_ident := "LOGIN<Set Compression";
  data := {[ "threshold" := VInt 64 ]};
|}.

Definition packet_login_success : Packet := {|
  ident := (2, 0, 2)%Z;
  str_ident := "LOGIN<Login Success";
  data := {[ "uuid" := VBytes []; "username" := VBytes [] ]};
|}.

Definition packet_disconnect : Packet := {|
  ident := (3, 0, 64)%Z;
  str_ident := "PLAY<Disconnect";
  data := {[ "reason" := VBytes [] ]};
|}.

(** The frame of [LOGIN<Login Success] in the layout without
    compression, and the frame of [PLAY<Disconnect] with an empty reason. *)
Definition frame_login_success_plain : list byte :=
  ["003"; "002"; "000"; "000"]%byte.

Definition frame_disconnect : list byte := ["002"; "064"; "000"]%byte.

(** [w_login] further on: in protocol state PLAY. *)
Definition w_play : World (H := mccrypto) :=
  set_net (set_proto_state_attr 3 (net w_login)) w_login.

(** The cipher object [enable_crypto] makes of the key [[42]]. *)
Definition session_cipher : @Cipher mccrypto := "042"%byte.

(** [w_login] with the cipher on. *)
Definition w_encrypted : World (H := mccrypto) :=
  exec (H := mccrypto) (enable_crypto (H := mccrypto) ["042"%byte]) w_login.

(** A peer that hung up, seen by [select] as readable and in error. *)
Definition os_hangup : os_answers := {|
  select_answer := Readiness true true true;
  recv_answer := Ok [];
  send_answer := Ok 0;
|}.

Definition os_select_fails : os_answers := {|
  select_answer := SelectFails "Bad file descriptor";
  recv_answer := Ok [];
  send_answer := Ok 0;
|}.

End Sample.

(** * Properties *)

Section Properties.

Context `{McCrypto, McData, McPacket}.

Ltac unfold_M :=
  unfold exec, outcome, emit, emit_packet, emit_socket, emit_to, record_event,
    kill, print, syscall, try_except, modify_rbuff, modify_plugin,
    modify_ssock, modify_net, modify, get, raise,
    mbind, M_bind, bind, mret, M_ret, ret in *.

(** ** The bus and the names of the plugin *)

(** The notifications the methods emit with [emit] have no handler in the
    plugin: a state's name ends in [_STATE], and ['connect'] and
    ['disconnect'] are not registered. *)
Lemma state_name_not_registered :
  ∀ (s : string), (s +:+ "_STATE") ∉ registered_names.
Proof.
  intros s Hin. unfold registered_names in Hin.
  repeat (apply elem_of_cons in Hin as [Heq | Hin];
    [ repeat (destruct s as [|? s]; simpl in Heq;
              [discriminate Heq | injection Heq as _ Heq]);
      destruct s; discriminate Heq | ]).
  apply elem_of_nil in Hin. exact Hin.
Qed.

Lemma connect_disconnect_not_registered :
  ("connect" ∉ registered_names) ∧ ("disconnect" ∉ registered_names).
Proof.
  unfold registered_names. split; intros Hin;
    repeat (apply elem_of_cons in Hin as [Heq | Hin]; [discriminate Heq |]);
    apply elem_of_nil in Hin; exact Hin.
Qed.

(** The two dispatch tables hold registered names only. *)
Lemma dispatch_tables_registered :
  Forall (λ entry, entry.1 ∈ registered_names)
    (packet_handlers ++ socket_handlers).
Proof.
  unfold packet_handlers, socket_handlers, registered_names.
  repeat constructor; simpl; set_solver.
Qed.

(** ** [poll] *)

(** C9.  When the [select] call raises, [poll] returns the empty list of
    flags: the error is printed and neither propagated nor turned into a
    [SOCKET_ERR] flag. *)
Theorem poll_select_failure_reports_nothing :
  ∀ (timeout : Z) (msg : string) (w : World),
    outcome (poll timeout (SelectFails msg)) w = Ok [].
Proof.
  intros timeout msg w. unfold poll, select_select. unfold_M.
  destruct (sending (ssock w)); reflexivity.
Qed.

(** What else a failed readiness check leaves behind: the message on the
    standard output and a cleared [sending] flag; the connection is as it
    was and no notification was emitted. *)
Lemma poll_select_failure_world :
  ∀ (timeout : Z) (msg : string) (w : World),
    exec (poll timeout (SelectFails msg)) w
    = set_stdout (stdout w ++ [[PStr msg]])
        (if sending (ssock w) then set_ssock (set_sending false (ssock w)) w
         else w).
Proof.
  intros timeout msg w. unfold poll, select_select. unfold_M.
  destruct (sending (ssock w)); reflexivity.
Qed.

(** A flag is reported only for a list the socket was put in: writability
    is asked for exactly when [sending] was set, and asking clears it. *)
Lemma poll_ready :
  ∀ (timeout : Z) (r wr x : bool) (w : World),
    poll timeout (Readiness r wr x) w
    = (Ok ((if r then ["SOCKET_RECV"] else []) ++
           (if wr && sending (ssock w) then ["SOCKET_SEND"] else []) ++
           (if x then ["SOCKET_ERR"] else [])),
       if sending (ssock w) then set_ssock (set_sending false (ssock w)) w
       else w).
Proof.
  intros timeout r wr x w. unfold poll, select_select. unfold_M.
  destruct (sending (ssock w)); simpl;
    rewrite ?andb_true_r, ?andb_false_r; reflexivity.
Qed.

(** ** [connect] *)

(** C10.  [connect] stores its arguments in [host] and [port] before it
    tries to connect: when the attempt fails, with whatever exception, the
    two fields hold the new values and [connected] is what it was -- [False]
    for a connection that was not connected. *)
Theorem connect_failure_overwrites_host_port :
  ∀ (host0 : string) (port0 : Z) (e : exn) (w : World),
    let w' := exec (connect host0 port0 (Raise e)) w in
    host (net w') = Some host0 ∧
    port (net w') = Some port0 ∧
    connected (net w') = connected (net w).
Proof.
  intros host0 port0 e w. unfold connect. unfold_M.
  destruct e; simpl; auto.
Qed.

(** A successful [connect]: non-blocking again, connected, one ['connect']
    notification carrying the address. *)
Lemma connect_success :
  ∀ (host0 : string) (port0 : Z) (w : World),
    let w' := exec (connect host0 port0 (Ok tt)) w in
    outcome (connect host0 port0 (Ok tt)) w = Ok tt ∧
    blocking (sock (ssock w')) = false ∧
    peer (sock (ssock w')) = Some (host0, port0) ∧
    connected (net w') = true ∧
    events w' = events w ++ [(Name "connect", PAddr host0 port0)].
Proof. intros host0 port0 w. unfold connect. unfold_M. simpl. auto. Qed.

(** C7, as the code has it.  A [connect] on a freshly loaded plugin whose
    attempt is refused returns normally and leaves [connected] false, but
    the socket is still in blocking mode: [setblocking(False)] is inside the
    [try] block, after the call that raised. *)
Theorem connect_failure_leaves_socket_blocking :
  ∀ (bufsize0 : nat) (sock_quit0 : bool),
    let w := NetPlugin_init bufsize0 sock_quit0 in
    let w' := exec (connect "localhost" 25565
                      (Raise (OSError "Connection refused"))) w in
    blocking (sock (ssock w)) = false ∧
    outcome (connect "localhost" 25565
               (Raise (OSError "Connection refused"))) w = Ok tt ∧
    connected (net w') = false ∧
    blocking (sock (ssock w')) = true.
Proof. intros bufsize0 sock_quit0. unfold connect. unfold_M. simpl. auto. Qed.

(** The same from any state: a failed attempt leaves the socket blocking. *)
Lemma connect_failure_blocking :
  ∀ (host0 : string) (port0 : Z) (e : exn) (w : World),
    blocking (sock (ssock (exec (connect host0 port0 (Raise e)) w))) = true.
Proof.
  intros host0 port0 e w. unfold connect. unfold_M. destruct e; reflexivity.
Qed.

(** ** Compression state *)

Lemma comp_invariant_new : comp_invariant NetCore_new.
Proof. unfold comp_invariant. simpl. split; [discriminate | lia]. Qed.

(** [set_comp_state] never fails and touches two attributes only. *)
Lemma set_comp_state_run :
  ∀ (threshold : Z) (w : World),
    set_comp_state threshold w
    = (Ok tt,
       set_net
         (if (0 <=? threshold)%Z
          then set_comp_state_attr PROTO_COMP_ON
                 (set_comp_threshold threshold (net w))
          else set_comp_threshold threshold (net w)) w).
Proof.
  intros threshold w. unfold set_comp_state. unfold_M.
  destruct (0 <=? threshold)%Z; reflexivity.
Qed.

(** A threshold that is not negative turns compression on. *)
Lemma set_comp_state_nonneg :
  ∀ (threshold : Z) (w : World),
    (0 ≤ threshold)%Z →
    comp_invariant (net (exec (set_comp_state threshold) w)).
Proof.
  intros threshold w Hle. unfold exec. rewrite set_comp_state_run.
  apply Z.leb_le in Hle as Hb. rewrite Hb. unfold comp_invariant. simpl.
  split; auto.
Qed.

(** A negative threshold keeps the invariant only while compression is
    off: [comp_state] is left as it was. *)
Lemma set_comp_state_negative :
  ∀ (threshold : Z) (w : World),
    (threshold < 0)%Z →
    comp_state (net (exec (set_comp_state threshold) w)) = comp_state (net w) ∧
    comp_threshold (net (exec (set_comp_state threshold) w)) = threshold.
Proof.
  intros threshold w Hlt. unfold exec. rewrite set_comp_state_run.
  apply Z.leb_gt in Hlt as Hb. rewrite Hb. simpl. auto.
Qed.

(** C2, as the code has it.  The invariant holds when the connection is
    constructed and after a compression announcement with threshold 64; a
    later announcement with threshold -1 stores -1 and leaves [comp_state]
    ON, because [set_comp_state] has no branch that turns compression off. *)
Theorem set_comp_state_minus_one_keeps_compression_on :
  ∀ (bufsize0 : nat) (sock_quit0 : bool),
    let w0 := NetPlugin_init bufsize0 sock_quit0 in
    let w1 := exec (set_comp_state 64) w0 in
    let w2 := exec (set_comp_state (-1)) w1 in
    comp_invariant (net w0) ∧
    comp_invariant (net w1) ∧
    comp_threshold (net w2) = (-1)%Z ∧
    comp_state (net w2) = PROTO_COMP_ON ∧
    ¬ comp_invariant (net w2).
Proof.
  intros bufsize0 sock_quit0. unfold comp_invariant, exec.
  rewrite !set_comp_state_run. simpl.
  split; [split; [discriminate | lia] |].
  split; [split; [lia | reflexivity] |].
  split; [reflexivity |]. split; [reflexivity |].
  intros [Hon _]. specialize (Hon eq_refl). lia.
Qed.

(** ** Crypto state *)

Lemma cipher_invariant_new : cipher_invariant NetCore_new.
Proof. reflexivity. Qed.

Lemma enable_crypto_invariant :
  ∀ (secret_key : list byte) (w : World),
    let w' := exec (enable_crypto secret_key) w in
    cipher (net w') = Obj (AESCipher secret_key) ∧
    encrypted (net w') = true ∧
    cipher_invariant (net w').
Proof. intros secret_key w. cbv. auto. Qed.

Lemma disable_crypto_invariant :
  ∀ (w : World),
    let w' := exec disable_crypto w in
    cipher (net w') = PyNone ∧
    encrypted (net w') = false ∧
    cipher_invariant (net w').
Proof. intros w. cbv. auto. Qed.

(** [reset] runs [__init__] on the same object: every attribute goes back
    to its default except [cipher], which keeps its value. *)
Lemma reset_run :
  ∀ (w : World),
    reset w = (Ok tt, set_net (NetCore_init (net w))
                        (set_ssock (SelectSocket.reset (ssock w)) w)).
Proof. intros w. reflexivity. Qed.

(** C3, as the code has it.  The invariant holds at construction and after
    [enable_crypto]; a [reset] that follows clears [encrypted] and leaves
    the cipher object in place, because [__init__] does not assign
    [cipher]. *)
Theorem reset_after_enable_crypto_keeps_cipher :
  ∀ (bufsize0 : nat) (sock_quit0 : bool) (secret_key : list byte),
    let w0 := NetPlugin_init bufsize0 sock_quit0 in
    let w1 := exec (enable_crypto secret_key) w0 in
    let w2 := exec reset w1 in
    cipher_invariant (net w0) ∧
    cipher_invariant (net w1) ∧
    encrypted (net w2) = false ∧
    cipher (net w2) = Obj (AESCipher secret_key) ∧
    ¬ cipher_invariant (net w2).
Proof.
  intros bufsize0 sock_quit0 secret_key. unfold cipher_invariant. cbn.
  repeat split; auto.
Qed.

(** ** Flushing the send buffer *)

(** The first half of the writable action: the bytes the system accepted
    leave the buffer, the rest stays, and the socket wrapper is not
    touched. *)
Lemma handleSEND_accepts :
  ∀ (sent : nat) (name : ename) (data : payload) (w : World),
    connected (net w) = true →
    let w' := exec (handleSEND (Ok sent) name data) w in
    outcome (handleSEND (Ok sent) name data) w = Ok tt ∧
    sbuff (net w') = drop sent (sbuff (net w)) ∧
    ssock w' = ssock w ∧
    plugin_sending (plugin w')
    = match drop sent (sbuff (net w)) with
      | [] => plugin_sending (plugin w)
      | _ :: _ => Obj true
      end.
Proof.
  intros sent name data w Hconn. unfold handleSEND. unfold_M.
  rewrite Hconn. simpl. destruct (drop sent (sbuff (net w))); simpl; auto.
Qed.

(** C4, as the code has it.  After [poll] has reported the socket writable
    (and cleared the wrapper's [sending] flag), a send that takes one of two
    pending bytes keeps the other in [sbuff]; the flag [poll] consults is
    still false, so the next [poll] does not ask for writability.  What was
    set is the attribute [sending] of the plugin object. *)
Theorem handleSEND_remainder_leaves_flag_clear :
  ∀ (bufsize0 : nat) (sock_quit0 : bool) (b1 b2 : byte),
    let w0 := set_ssock (set_sending true SelectSocket.init)
                (set_net (set_sbuff [b1; b2] (set_connected true NetCore_new))
                   (NetPlugin_init bufsize0 sock_quit0)) in
    let w1 := exec (poll (-1) (Readiness false true false)) w0 in
    let w2 := exec (handleSEND (Ok 1) (Name "SOCKET_SEND") PNone) w1 in
    outcome (poll (-1) (Readiness false true false)) w0 = Ok ["SOCKET_SEND"] ∧
    sbuff (net w2) = [b2] ∧
    sending (ssock w2) = false ∧
    plugin_sending (plugin w2) = Obj true ∧
    outcome (poll (-1) (Readiness false true false)) w2 = Ok [].
Proof. intros bufsize0 sock_quit0 b1 b2. cbn. auto. Qed.

(** ** Protocol state machine *)

Lemma set_proto_state_sets :
  ∀ (state : Z) (w : World),
    proto_state (net (exec (set_proto_state state) w)) = state.
Proof.
  intros state w. unfold set_proto_state. unfold_M.
  destruct (state_lookup state); reflexivity.
Qed.

(** With a state of [state_lookup], [set_proto_state] returns normally:
    it changes [proto_state] and emits the state's name. *)
Lemma set_proto_state_run :
  ∀ (state : Z) (s : string) (w : World),
    state_lookup state = Some s →
    set_proto_state state w
    = (Ok tt,
       set_events (events w ++ [(Name (s +:+ "_STATE"), PNone)])
         (set_net (set_proto_state_attr state (net w)) w)).
Proof.
  intros state s w Hs. unfold set_proto_state. unfold_M. rewrite Hs.
  reflexivity.
Qed.

Lemma with_comp_with_comp :
  ∀ (c c' : CompState) (t t' : Z) (w : World),
    with_comp c t (with_comp c' t' w) = with_comp c t w.
Proof. intros c c' t t' w. reflexivity. Qed.

Lemma only_comp_changed_refl : ∀ (w : World), only_comp_changed w w.
Proof. intros [n s p ev k out]. destruct n. reflexivity. Qed.

Lemma only_comp_changed_trans :
  ∀ (w1 w2 w3 : World),
    only_comp_changed w1 w2 → only_comp_changed w2 w3 →
    only_comp_changed w1 w3.
Proof.
  unfold only_comp_changed. intros w1 w2 w3 H12 H23.
  rewrite <- (with_comp_with_comp _ (comp_state (net w2)) _
                (comp_threshold (net w2)) w3).
  rewrite H23. exact H12.
Qed.

Lemma only_comp_changed_proto_state :
  ∀ (w w' : World),
    only_comp_changed w w' → proto_state (net w') = proto_state (net w).
Proof.
  unfold only_comp_changed. intros w w' Hc. rewrite <- Hc. reflexivity.
Qed.

(** A compression announcement changes [comp_threshold] and [comp_state]
    and nothing else, whether the handler returns or raises. *)
Lemma handle_comp_frame :
  ∀ (name : ename) (packet : payload) (w : World),
    only_comp_changed w (exec (handle_comp name packet) w).
Proof.
  intros name packet w. unfold only_comp_changed, with_comp.
  unfold handle_comp, int_field, packet_field.
  destruct w as [n s p ev k out], n. unfold_M.
  destruct packet as [| | |pk| |]; try reflexivity.
  destruct (data pk !! "threshold") as [[z| |]|]; try reflexivity.
  simpl. rewrite set_comp_state_run. simpl.
  destruct (0 <=? z)%Z; reflexivity.
Qed.

Lemma handle_all_comp_frame :
  ∀ (name : ename) (packets : list Packet) (w : World),
    only_comp_changed w (handle_all handle_comp name packets w).
Proof.
  intros name packets. unfold handle_all.
  induction packets as [|p packets IH]; intros w; simpl.
  - apply only_comp_changed_refl.
  - eapply only_comp_changed_trans; [apply handle_comp_frame | apply IH].
Qed.

(** C6.  A handshake packet whose [next_state] field is LOGIN puts the
    engine in protocol state LOGIN, from HANDSHAKE as from any other state;
    the compression announcements handled after it change [comp_threshold]
    and [comp_state] only; and the login-success packet that follows puts
    the engine in protocol state PLAY. *)
Theorem handshake_then_login_success_reaches_play :
  ∀ (handshake : Packet) (announcements : list Packet) (success : payload)
    (n1 n2 n3 : ename) (w : World),
    data handshake !! "next_state" = Some (VInt LOGIN_STATE) →
    let w1 := exec (handle_handshake n1 (PPacket handshake)) w in
    let w2 := handle_all handle_comp n2 announcements w1 in
    let w3 := exec (handle_login_success n3 success) w2 in
    proto_state (net w1) = LOGIN_STATE ∧
    only_comp_changed w1 w2 ∧
    proto_state (net w2) = LOGIN_STATE ∧
    proto_state (net w3) = PLAY_STATE.
Proof.
  intros handshake announcements success n1 n2 n3 w Hnext w1 w2 w3.
  assert (Hlogin : proto_state (net w1) = LOGIN_STATE).
  { subst w1. unfold handle_handshake, int_field, packet_field. unfold_M.
    rewrite Hnext. simpl. apply set_proto_state_sets. }
  assert (Hcomp : only_comp_changed w1 w2)
    by apply handle_all_comp_frame.
  split; [exact Hlogin |]. split; [exact Hcomp |]. split.
  - rewrite (only_comp_changed_proto_state _ _ Hcomp). exact Hlogin.
  - subst w3. unfold handle_login_success. apply set_proto_state_sets.
Qed.

(** The handlers return normally when the two states are in
    [state_lookup], and the transition is then announced on the bus. *)
Lemma handle_handshake_run :
  ∀ (handshake : Packet) (state : Z) (s : string) (name : ename) (w : World),
    data handshake !! "next_state" = Some (VInt state) →
    state_lookup state = Some s →
    handle_handshake name (PPacket handshake) w
    = (Ok tt,
       set_events (events w ++ [(Name (s +:+ "_STATE"), PNone)])
         (set_net (set_proto_state_attr state (net w)) w)).
Proof.
  intros handshake state s name w Hnext Hs.
  unfold handle_handshake, int_field, packet_field. unfold_M.
  rewrite Hnext. simpl. apply set_proto_state_run. exact Hs.
Qed.

(** ** Socket failure *)

Lemma handleERR_run :
  ∀ (name : ename) (cause : payload) (w : World),
    handleERR name cause w
    = (Ok tt,
       {| net := NetCore_init (net w);
          ssock := SelectSocket.reset (ssock w);
          plugin := plugin w;
          events := events w ++ [(Name "disconnect", cause)];
          kill_event := kill_event w || sock_quit (plugin w);
          stdout := stdout w ++ [[PStr "Socket Error:"; cause]] |}).
Proof.
  intros name cause [n s p ev k out]. unfold handleERR, reset. unfold_M. simpl.
  destruct (sock_quit p), k; reflexivity.
Qed.

Lemma handleHUP_run :
  ∀ (name : ename) (data : payload) (w : World),
    handleHUP name data w
    = (Ok tt,
       {| net := NetCore_init (net w);
          ssock := SelectSocket.reset (ssock w);
          plugin := plugin w;
          events := events w ++ [(Name "disconnect", PStr "Socket Hung Up")];
          kill_event := kill_event w || sock_quit (plugin w);
          stdout := stdout w ++ [[PStr "Socket has hung up"]] |}).
Proof.
  intros name data [n s p ev k out]. unfold handleHUP, reset. unfold_M. simpl.
  destruct (sock_quit p), k; reflexivity.
Qed.

Lemma spec_socket_failure_run :
  ∀ (cause : payload) (w : World),
    spec_socket_failure cause w
    = (Ok tt,
       {| net := NetCore_init (net w);
          ssock := SelectSocket.reset (ssock w);
          plugin := plugin w;
          events := events w ++ [(Name "disconnect", cause)];
          kill_event := kill_event w || sock_quit (plugin w);
          stdout := stdout w |}).
Proof.
  intros cause [n s p ev k out]. unfold spec_socket_failure, reset.
  unfold_M. simpl. destruct (sock_quit p), k; reflexivity.
Qed.

(** The bus delivers ['SOCKET_HUP'] to [handleHUP] and ['SOCKET_ERR'] to
    [handleERR]. *)
Lemma emit_socket_hup :
  ∀ (data : payload) (w : World),
    emit_socket (Name "SOCKET_HUP") data w
    = (record_event (Name "SOCKET_HUP") data;;
       handleHUP (Name "SOCKET_HUP") data) w.
Proof.
  intros data w. unfold emit_socket, emit_to, run_handlers, socket_handlers.
  unfold_M. simpl. destruct (handleHUP _ _ _) as [[[]|e] w']; reflexivity.
Qed.

Lemma emit_socket_err :
  ∀ (data : payload) (w : World),
    emit_socket (Name "SOCKET_ERR") data w
    = (record_event (Name "SOCKET_ERR") data;;
       handleERR (Name "SOCKET_ERR") data) w.
Proof.
  intros data w. unfold emit_socket, emit_to, run_handlers, socket_handlers.
  unfold_M. simpl. destruct (handleERR _ _ _) as [[[]|e] w']; reflexivity.
Qed.

(** C8.  [handleHUP] and [handleERR] both carry out the spec's failure
    action -- reset the engine, emit one ['disconnect'] with the cause, kill
    the loop when [sock_quit] is set -- and differ only in the cause, which
    for a hang-up is the text "Socket Hung Up", and in the line printed.  A
    zero-length read reaches the first through ['SOCKET_HUP'], a failed read
    the second through ['SOCKET_ERR']. *)
Theorem hangup_and_error_same_effects :
  ∀ (fuel : nat) (name : ename) (data cause : payload) (msg : string)
    (w : World),
    connected (net w) = true →
    same_effects (handleHUP name data w)
      (spec_socket_failure (PStr "Socket Hung Up") w) ∧
    same_effects (handleERR name cause w) (spec_socket_failure cause w) ∧
    same_effects (handleHUP name data w)
      (handleERR name (PStr "Socket Hung Up") w) ∧
    handleRECV fuel (Ok []) name data w
    = Some ((record_event (Name "SOCKET_HUP") PNone;;
             handleHUP (Name "SOCKET_HUP") PNone) w) ∧
    handleRECV fuel (Raise (OSError msg)) name data w
    = Some ((record_event (Name "SOCKET_ERR") (PExn (OSError msg));;
             handleERR (Name "SOCKET_ERR") (PExn (OSError msg))) w).
Proof.
  intros fuel name data cause msg w Hconn. unfold same_effects.
  rewrite !handleHUP_run, !handleERR_run, !spec_socket_failure_run.
  do 3 (split; [split; reflexivity |]).
  unfold handleRECV. rewrite Hconn.
  rewrite emit_socket_hup, emit_socket_err. unfold_M.
  rewrite !handleHUP_run, !handleERR_run. split; reflexivity.
Qed.

(** ** What the packet handlers leave alone *)

Lemma wire_frame_ret : ∀ {A} (a : A), wire_frame (mret a).
Proof. intros A a b c e w. reflexivity. Qed.

Lemma wire_frame_raise : ∀ {A} (e : exn), wire_frame (raise (A := A) e).
Proof. intros A e b c e' w. reflexivity. Qed.

Lemma wire_frame_bind :
  ∀ {A B} (m : M A) (f : A → M B),
    wire_frame m → (∀ a, wire_frame (f a)) → wire_frame (m ≫= f).
Proof.
  intros A B m f Hm Hf b c e w. unfold mbind, M_bind, bind.
  rewrite Hm. destruct (m w) as [[a|ex] w']; simpl; [apply Hf | reflexivity].
Qed.

Lemma wire_frame_print : ∀ (args : list payload), wire_frame (print args).
Proof. intros args b c e w. reflexivity. Qed.

Lemma wire_frame_emit :
  ∀ (name : ename) (data : payload), wire_frame (emit name data).
Proof. intros name data b c e w. reflexivity. Qed.

Lemma wire_frame_record_event :
  ∀ (name : ename) (data : payload), wire_frame (record_event name data).
Proof. intros name data b c e w. reflexivity. Qed.

Lemma wire_frame_set_proto_state :
  ∀ (state : Z), wire_frame (set_proto_state state).
Proof.
  intros state. unfold set_proto_state. apply wire_frame_bind.
  - intros b c e w. reflexivity.
  - intros _. destruct (state_lookup state);
      [apply wire_frame_emit | apply wire_frame_raise].
Qed.

Lemma wire_frame_set_comp_state :
  ∀ (threshold : Z), wire_frame (set_comp_state threshold).
Proof.
  intros threshold. unfold set_comp_state. apply wire_frame_bind.
  - intros b c e w. reflexivity.
  - intros _. destruct (0 <=? threshold)%Z;
      [intros b c e w; reflexivity | apply wire_frame_ret].
Qed.

Lemma wire_frame_packet_field :
  ∀ (packet : payload) (key : string), wire_frame (packet_field packet key).
Proof.
  intros packet key. unfold packet_field.
  destruct packet; try apply wire_frame_raise.
  destruct (data p !! key); [apply wire_frame_ret | apply wire_frame_raise].
Qed.

Lemma wire_frame_int_field :
  ∀ (packet : payload) (key : string), wire_frame (int_field packet key).
Proof.
  intros packet key. unfold int_field.
  apply wire_frame_bind; [apply wire_frame_packet_field |].
  intros [z| |]; [apply wire_frame_ret | apply wire_frame_raise ..].
Qed.

Lemma wire_frame_packet_handlers :
  Forall (λ entry, ∀ name data, wire_frame (entry.2 name data))
    packet_handlers.
Proof.
  unfold packet_handlers. repeat constructor; simpl; intros name packet.
  - unfold handle_disconnect.
    apply wire_frame_bind; [apply wire_frame_packet_field |]. intros reason.
    apply wire_frame_bind; [apply wire_frame_print |]. intros _.
    apply wire_frame_emit.
  - unfold handle_handshake.
    apply wire_frame_bind; [apply wire_frame_int_field |].
    apply wire_frame_set_proto_state.
  - apply wire_frame_set_proto_state.
  - unfold handle_comp.
    apply wire_frame_bind; [apply wire_frame_int_field |].
    apply wire_frame_set_comp_state.
  - unfold handle_comp.
    apply wire_frame_bind; [apply wire_frame_int_field |].
    apply wire_frame_set_comp_state.
Qed.

Lemma wire_frame_run_handlers :
  ∀ (table : list (string * handler)) (name : ename) (data : payload),
    Forall (λ entry, ∀ name data, wire_frame (entry.2 name data)) table →
    wire_frame (run_handlers table name data).
Proof.
  intros table name data Htable.
  induction Htable as [|[n h] table Hh _ IH]; simpl.
  - apply wire_frame_ret.
  - apply wire_frame_bind; [| intros _; exact IH].
    destruct (decide (name = Name n)); [apply Hh | apply wire_frame_ret].
Qed.

Lemma wire_frame_emit_packet :
  ∀ (name : ename) (data : payload), wire_frame (emit_packet name data).
Proof.
  intros name data. unfold emit_packet, emit_to.
  apply wire_frame_bind; [apply wire_frame_record_event |]. intros _.
  apply wire_frame_run_handlers, wire_frame_packet_handlers.
Qed.

Lemma wire_frame_emit_decoded :
  ∀ (packet : Packet), wire_frame (emit_decoded packet).
Proof.
  intros packet. unfold emit_decoded.
  apply wire_frame_bind; [apply wire_frame_emit_packet |]. intros _.
  apply wire_frame_emit_packet.
Qed.

Lemma with_wire_id :
  ∀ (w : World),
    with_wire (rbuff (net w)) (cipher (net w)) (encrypted (net w)) w = w.
Proof. intros [n s p ev k out]. destruct n. reflexivity. Qed.

(** A computation of that kind leaves the three attributes as they are. *)
Lemma wire_frame_preserves :
  ∀ {A} (m : M A) (w : World),
    wire_frame m →
    rbuff (net (m w).2) = rbuff (net w) ∧
    cipher (net (m w).2) = cipher (net w) ∧
    encrypted (net (m w).2) = encrypted (net w).
Proof.
  intros A m w Hm.
  specialize (Hm (rbuff (net w)) (cipher (net w)) (encrypted (net w)) w).
  rewrite with_wire_id in Hm. rewrite Hm. simpl. auto.
Qed.

(** With another receive buffer, the notifications of a packet do the same
    to everything else. *)
Lemma emit_decoded_with_rbuff :
  ∀ (packet : Packet) (b : BoundBuffer) (w : World),
    emit_decoded packet (with_rbuff b w)
    = ((emit_decoded packet w).1, with_rbuff b (emit_decoded packet w).2).
Proof.
  intros packet b w.
  pose proof (wire_frame_emit_decoded packet) as Hf.
  destruct (wire_frame_preserves (emit_decoded packet) w Hf) as (_ & Hc & He).
  specialize (Hf b (cipher (net w)) (encrypted (net w)) w).
  assert (Hw : ∀ v, with_wire b (cipher (net v)) (encrypted (net v)) v
                    = with_rbuff b v).
  { intros [n s p ev k out]. destruct n. reflexivity. }
  rewrite Hw in Hf. rewrite Hf. rewrite <- Hc, <- He, Hw. reflexivity.
Qed.

(** ** The decode loop *)

(** One iteration of the loop, in terms of the attempt's outcome. *)
Lemma read_loop_step :
  ∀ (fuel : nat) (w : World),
    read_loop (S fuel) w
    = let saved := BoundBuffer.save (rbuff (net w)) in
      let w' := with_rbuff (BoundBuffer.advance (next_attempt w).2 saved) w in
      match (next_attempt w).1 with
      | Raise e =>
          if is_underflow e then Some (Ok tt, with_rbuff saved w)
          else Some (Raise e, w')
      | Ok None => read_loop fuel w'
      | Ok (Some packet) =>
          match emit_decoded packet w' with
          | (Ok _, w'') => read_loop fuel w''
          | (Raise e, w'') => Some (Raise e, w'')
          end
      end.
Proof.
  intros fuel w. simpl. unfold decode_rbuff, next_attempt. unfold_M. simpl.
  unfold BoundBuffer.unread. simpl.
  destruct (decode _ _ _) as [[[p|]|e] k]; simpl; try reflexivity.
  destruct e; reflexivity.
Qed.

(** C1.  When a parse attempt fails, the loop of [read_packet] stops.  If
    the failure is a buffer underflow the call returns normally and the
    receive buffer is what [save()] had made of it before the attempt: same
    bytes, same read position.  If it is anything else the exception leaves
    [read_packet], with the bytes the attempt consumed gone. *)
Theorem read_loop_failed_attempt :
  ∀ (fuel : nat) (w : World) (e : exn) (k : nat),
    next_attempt w = (Raise e, k) →
    read_loop (S fuel) w
    = Some (if is_underflow e
            then (Ok tt, with_rbuff (BoundBuffer.save (rbuff (net w))) w)
            else (Raise e,
                  with_rbuff
                    (BoundBuffer.advance k (BoundBuffer.save (rbuff (net w))))
                    w)).
Proof.
  intros fuel w e k Hattempt. rewrite read_loop_step, Hattempt. simpl.
  destruct (is_underflow e); reflexivity.
Qed.

(** The checkpoint leaves the reader's view of the buffer unchanged. *)
Lemma save_unread :
  ∀ (b : BoundBuffer),
    BoundBuffer.unread (BoundBuffer.save b) = BoundBuffer.unread b ∧
    pos (BoundBuffer.save b) = pos b ∧
    bytes (BoundBuffer.save b) = bytes b.
Proof. intros b. auto. Qed.

Lemma revert_after_attempt :
  ∀ (k : nat) (b : BoundBuffer),
    BoundBuffer.revert (BoundBuffer.advance k (BoundBuffer.save b))
    = BoundBuffer.save b.
Proof. intros k b. reflexivity. Qed.

(** The call as a whole: it returns normally only through the underflow
    branch, with the buffer at its checkpoint and the next attempt bound to
    underflow again; and an exception that leaves it is never a buffer
    underflow of the decoder, which the loop catches. *)
Lemma read_loop_normal_return :
  ∀ (fuel : nat) (w w' : World) (r : Res unit),
    read_loop fuel w = Some (r, w') →
    r = Ok tt →
    (∃ k, next_attempt w' = (Raise BufferUnderflowException, k)) ∧
    rbuff (net w') = BoundBuffer.save (rbuff (net w')).
Proof.
  induction fuel as [|fuel IH]; intros w w' r Hrun Hr; [discriminate |].
  rewrite read_loop_step in Hrun. simpl in Hrun.
  destruct (next_attempt w) as [[[p|]|e] k] eqn:Hattempt; simpl in Hrun.
  - destruct (emit_decoded p _) as [[[]|e] w''];
      [eapply IH; eauto | congruence].
  - eapply IH; eauto.
  - destruct e; simpl in Hrun; try congruence.
    injection Hrun as _ <-. split; [| reflexivity].
    exists k. rewrite <- Hattempt. reflexivity.
Qed.

Lemma read_packet_normal_return :
  ∀ (fuel : nat) (data : list byte) (w w' : World),
    read_packet fuel data w = Some (Ok tt, w') →
    (∃ k, next_attempt w' = (Raise BufferUnderflowException, k)) ∧
    rbuff (net w') = BoundBuffer.save (rbuff (net w')).
Proof.
  intros fuel data w w' Hrun. unfold read_packet in Hrun.
  match type of Hrun with
  | (let (_, _) := ?run in _) = _ => destruct run as [[[]|e] w1]
  end; [| discriminate].
  eapply read_loop_normal_return; [exact Hrun | reflexivity].
Qed.

(** More fuel does not change the result of a loop that ended. *)
Lemma read_loop_fuel_mono :
  ∀ (fuel fuel' : nat) (w : World) (x : Res unit * World),
    read_loop fuel w = Some x → fuel ≤ fuel' → read_loop fuel' w = Some x.
Proof.
  induction fuel as [|fuel IH]; intros fuel' w x Hrun Hle; [discriminate |].
  destruct fuel' as [|fuel']; [lia |].
  rewrite read_loop_step in *. simpl in *.
  destruct (next_attempt w) as [[[p|]|e] k]; simpl in *.
  - destruct (emit_decoded p _) as [[[]|e] w'']; [| exact Hrun].
    apply (IH fuel'); [exact Hrun | lia].
  - apply (IH fuel'); [exact Hrun | lia].
  - exact Hrun.
Qed.

(** The loop starts with [save()], so a buffer that is already at its
    checkpoint makes no difference. *)
Lemma read_loop_saved :
  ∀ (fuel : nat) (w : World),
    read_loop fuel (with_rbuff (BoundBuffer.save (rbuff (net w))) w)
    = read_loop fuel w.
Proof.
  intros [|fuel] w; [reflexivity |]. rewrite !read_loop_step. reflexivity.
Qed.

(** The loop does not look at the cipher. *)
Lemma emit_decoded_with_cipher :
  ∀ (packet : Packet) (c : attr Cipher) (w : World),
    emit_decoded packet (with_cipher c w)
    = ((emit_decoded packet w).1, with_cipher c (emit_decoded packet w).2).
Proof.
  intros packet c w.
  pose proof (wire_frame_emit_decoded packet) as Hf.
  destruct (wire_frame_preserves (emit_decoded packet) w Hf) as (Hb & _ & He).
  specialize (Hf (rbuff (net w)) c (encrypted (net w)) w).
  assert (Hw : ∀ v, with_wire (rbuff (net v)) c (encrypted (net v)) v
                    = with_cipher c v).
  { intros [n s p ev k out]. destruct n. reflexivity. }
  rewrite Hw in Hf. rewrite Hf. rewrite <- Hb, <- He, Hw. reflexivity.
Qed.

Lemma read_loop_with_cipher :
  ∀ (fuel : nat) (c : attr Cipher) (w : World),
    read_loop fuel (with_cipher c w)
    = (λ x, (x.1, with_cipher c x.2)) <$> read_loop fuel w.
Proof.
  induction fuel as [|fuel IH]; intros c w; [reflexivity |].
  rewrite !read_loop_step. simpl.
  change (next_attempt (with_cipher c w)) with (next_attempt w).
  destruct (next_attempt w) as [[[p|]|e] k]; simpl.
  - change (with_rbuff ?b (with_cipher c w))
      with (with_cipher c (with_rbuff b w)).
    rewrite emit_decoded_with_cipher.
    destruct (emit_decoded p _) as [[[]|e] w'']; simpl; [apply IH | reflexivity].
  - apply (IH c (with_rbuff _ w)).
  - destruct (is_underflow e); reflexivity.
Qed.

(** The loop leaves [encrypted] and [cipher] as they are. *)
Lemma read_loop_crypto :
  ∀ (fuel : nat) (w w' : World) (r : Res unit),
    read_loop fuel w = Some (r, w') →
    encrypted (net w') = encrypted (net w) ∧ cipher (net w') = cipher (net w).
Proof.
  induction fuel as [|fuel IH]; intros w w' r Hrun; [discriminate |].
  rewrite read_loop_step in Hrun. simpl in Hrun.
  destruct (next_attempt w) as [[[p|]|e] k]; simpl in Hrun.
  - pose proof (wire_frame_preserves (emit_decoded p)
                  (with_rbuff (BoundBuffer.advance k
                     (BoundBuffer.save (rbuff (net w)))) w)
                  (wire_frame_emit_decoded p)) as (_ & Hc & He).
    destruct (emit_decoded p _) as [[[]|e] w'']; simpl in *.
    + apply IH in Hrun as [-> ->]. auto.
    + injection Hrun as _ <-. auto.
  - apply IH in Hrun as [-> ->]. auto.
  - destruct (is_underflow e); injection Hrun as _ <-; auto.
Qed.

(** ** Feeding a byte sequence in two parts *)

Lemma unread_feed :
  ∀ (ext : list byte) (w : World),
    BoundBuffer.wf (rbuff (net w)) →
    BoundBuffer.unread (rbuff (net (feed ext w)))
    = BoundBuffer.unread (rbuff (net w)) ++ ext.
Proof.
  intros ext w Hwf. unfold BoundBuffer.unread, BoundBuffer.wf in *. simpl.
  apply drop_app_le. exact Hwf.
Qed.

Lemma wf_feed :
  ∀ (ext : list byte) (w : World),
    BoundBuffer.wf (rbuff (net w)) → BoundBuffer.wf (rbuff (net (feed ext w))).
Proof.
  intros ext w. unfold BoundBuffer.wf. simpl. rewrite length_app. lia.
Qed.

Lemma wf_advance :
  ∀ (k : nat) (b : BoundBuffer),
    BoundBuffer.wf b → k ≤ length (BoundBuffer.unread b) →
    BoundBuffer.wf (BoundBuffer.advance k (BoundBuffer.save b)).
Proof.
  intros k b. unfold BoundBuffer.wf, BoundBuffer.unread. simpl.
  rewrite length_drop. lia.
Qed.

Lemma feed_feed :
  ∀ (a b : list byte) (w : World), feed b (feed a w) = feed (a ++ b) w.
Proof.
  intros a b w. unfold feed, with_rbuff, BoundBuffer.append. simpl.
  rewrite app_assoc. reflexivity.
Qed.

Section Split.

(** What the split property asks of the decoder: an attempt that ends in
    anything but an underflow has read only bytes that were there, and what
    follows those bytes has no part in its outcome. *)
Hypothesis decode_stable :
  ∀ (id : Z * Z) (cs : CompState) (bs ext : list byte)
    (r : Res (option Packet)) (k : nat),
    decode id cs bs = (r, k) →
    r ≠ Raise BufferUnderflowException →
    k ≤ length bs ∧ decode id cs (bs ++ ext) = (r, k).

Lemma next_attempt_feed :
  ∀ (ext : list byte) (w : World) (r : Res (option Packet)) (k : nat),
    BoundBuffer.wf (rbuff (net w)) →
    next_attempt w = (r, k) →
    r ≠ Raise BufferUnderflowException →
    k ≤ length (BoundBuffer.unread (rbuff (net w))) ∧
    next_attempt (feed ext w) = (r, k).
Proof using decode_stable.
  intros ext w r k Hwf Hattempt Hr. unfold next_attempt in *.
  rewrite unread_feed by exact Hwf. simpl.
  apply decode_stable; assumption.
Qed.

(** The notifications of a packet commute with feeding the buffer. *)
Lemma emit_decoded_feed :
  ∀ (packet : Packet) (ext : list byte) (w : World),
    emit_decoded packet (feed ext w)
    = ((emit_decoded packet w).1, feed ext (emit_decoded packet w).2).
Proof.
  intros packet ext w. unfold feed at 1. rewrite emit_decoded_with_rbuff.
  pose proof (wire_frame_preserves (emit_decoded packet) w
                (wire_frame_emit_decoded packet)) as (Hb & _ & _).
  unfold feed. rewrite Hb. reflexivity.
Qed.

(** The run on the longer buffer, read back as a run on the shorter one
    followed by a run on what the first left, fed with the extension. *)
Lemma read_loop_split :
  ∀ (fuel : nat) (ext : list byte) (w : World) (y : Res unit * World),
    BoundBuffer.wf (rbuff (net w)) →
    read_loop fuel (feed ext w) = Some y →
    ∃ (r : Res unit) (w' : World),
      read_loop fuel w = Some (r, w') ∧
      match r with
      | Ok _ => read_loop fuel (feed ext w') = Some y
      | Raise e => y = (Raise e, feed ext w')
      end.
Proof using decode_stable.
  induction fuel as [|fuel IH]; intros ext w y Hwf Hrun; [discriminate |].
  rewrite read_loop_step. cbn zeta.
  destruct (next_attempt w) as [r k] eqn:Hattempt. cbn [fst snd].
  assert (Hcases : r = Raise BufferUnderflowException
                   ∨ r ≠ Raise BufferUnderflowException).
  { destruct r as [o|[]]; auto; right; discriminate. }
  destruct Hcases as [-> | Hr].
  { cbn [is_underflow]. eexists _, _. split; [reflexivity |].
    change (feed ext (with_rbuff (BoundBuffer.save (rbuff (net w))) w))
      with (with_rbuff (BoundBuffer.save (rbuff (net (feed ext w))))
              (feed ext w)).
    rewrite read_loop_saved. exact Hrun. }
  destruct (next_attempt_feed ext w r k Hwf Hattempt Hr) as [Hk Hext].
  rewrite read_loop_step in Hrun. cbn zeta in Hrun. rewrite Hext in Hrun.
  cbn [fst snd] in Hrun.
  set (w2 := with_rbuff
               (BoundBuffer.advance k (BoundBuffer.save (rbuff (net w)))) w)
    in *.
  change (with_rbuff (BoundBuffer.advance k _) (feed ext w))
    with (feed ext w2) in Hrun.
  assert (Hwf2 : BoundBuffer.wf (rbuff (net w2)))
    by (apply wf_advance; assumption).
  destruct r as [[p|]|e].
  - rewrite emit_decoded_feed in Hrun.
    pose proof (wire_frame_preserves (emit_decoded p) w2
                  (wire_frame_emit_decoded p)) as (Hb & _ & _).
    destruct (emit_decoded p w2) as [[[]|e] w3]; cbn [fst snd] in Hrun, Hb.
    + destruct (IH ext w3 y) as (r & w' & Hshort & Hrest);
        [rewrite Hb; exact Hwf2 | exact Hrun |].
      exists r, w'. split; [exact Hshort |].
      destruct r; [| exact Hrest].
      eapply read_loop_fuel_mono; [exact Hrest | lia].
    + injection Hrun as <-. eexists _, _. split; reflexivity.
  - destruct (IH ext w2 y Hwf2 Hrun) as (r & w' & Hshort & Hrest).
    exists r, w'. split; [exact Hshort |].
    destruct r; [| exact Hrest].
    eapply read_loop_fuel_mono; [exact Hrest | lia].
  - destruct (is_underflow e) eqn:Hu;
      [destruct e; try discriminate; congruence |].
    injection Hrun as <-. eexists _, _. split; reflexivity.
Qed.

(** What [read_packet] does before its loop. *)
Lemma read_packet_plain :
  ∀ (fuel : nat) (data : list byte) (w : World),
    encrypted (net w) = false →
    read_packet fuel data w = read_loop fuel (feed data w).
Proof. intros fuel data w He. unfold read_packet. rewrite He. reflexivity. Qed.

Lemma read_packet_decrypts :
  ∀ (fuel : nat) (data : list byte) (c : Cipher) (w : World),
    encrypted (net w) = true →
    cipher (net w) = Obj c →
    read_packet fuel data w
    = read_loop fuel
        (with_cipher (Obj (decrypt c data).2) (feed (decrypt c data).1 w)).
Proof.
  intros fuel data c w He Hc. unfold read_packet, cipher_call. unfold_M.
  rewrite He, Hc. reflexivity.
Qed.

Lemma read_packet_without_cipher :
  ∀ (fuel : nat) (data : list byte) (w : World),
    encrypted (net w) = true →
    is_obj (cipher (net w)) = false →
    ∃ e, read_packet fuel data w = Some (Raise e, w).
Proof.
  intros fuel data w He Hc. unfold read_packet, cipher_call. unfold_M.
  rewrite He. destruct (cipher (net w)); [| | discriminate]; eauto.
Qed.

Section Stream.

(** What it asks of the cipher: it is a stream cipher, so decrypting a
    sequence in two parts gives the two parts of its plaintext. *)
Hypothesis decrypt_stream :
  ∀ (c : Cipher) (a b : list byte),
    decrypt c (a ++ b)
    = ((decrypt c a).1 ++ (decrypt (decrypt c a).2 b).1,
       (decrypt (decrypt c a).2 b).2).

(** One call on the whole sequence, read back as two calls on its parts. *)
Lemma read_packet_split :
  ∀ (fuel : nat) (part1 part2 : list byte) (w : World)
    (y : Res unit * World),
    BoundBuffer.wf (rbuff (net w)) →
    read_packet fuel (part1 ++ part2) w = Some y →
    ∃ x, read_twice fuel part1 part2 w = Some x ∧ same_messages x y.
Proof using decode_stable decrypt_stream.
  intros fuel part1 part2 w y Hwf Hrun. unfold read_twice.
  destruct (encrypted (net w)) eqn:He.
  - destruct (cipher (net w)) as [| |c] eqn:Hc.
    1, 2: destruct (read_packet_without_cipher fuel (part1 ++ part2) w)
            as [e Hall]; [exact He | rewrite Hc; reflexivity |];
          destruct (read_packet_without_cipher fuel part1 w)
            as [e1 Hone]; [exact He | rewrite Hc; reflexivity |];
          rewrite Hone; exists (Raise e1, w);
          split; [reflexivity |];
          rewrite Hall in Hrun; injection Hrun as <-;
          unfold read_packet, cipher_call in Hall, Hone; unfold_M;
          rewrite He, Hc in Hall, Hone; simpl in Hall, Hone;
          injection Hall as <-; injection Hone as <-;
          repeat split; discriminate.
    rewrite (read_packet_decrypts _ _ c) in Hrun by assumption.
    rewrite decrypt_stream in Hrun. cbn [fst snd] in Hrun.
    set (d1 := (decrypt c part1).1) in *.
    set (c1 := (decrypt c part1).2) in *.
    set (d2 := (decrypt c1 part2).1) in *.
    set (c2 := (decrypt c1 part2).2) in *.
    set (w1 := with_cipher (Obj c1) (feed d1 w)).
    rewrite <- feed_feed in Hrun.
    change (with_cipher (Obj c2) (feed d2 (feed d1 w)))
      with (with_cipher (Obj c2) (feed d2 w1)) in Hrun.
    rewrite read_loop_with_cipher in Hrun.
    destruct (read_loop fuel (feed d2 w1)) as [y0|] eqn:Hlong;
      [| discriminate].
    injection Hrun as <-.
    destruct (read_loop_split fuel d2 w1 y0) as (r & w' & Hshort & Hrest);
      [apply (wf_feed d1 w Hwf) | exact Hlong |].
    rewrite (read_packet_decrypts _ _ c) by assumption.
    fold d1 c1 w1. rewrite Hshort.
    destruct (read_loop_crypto _ _ _ _ Hshort) as [He' Hc'].
    destruct r as [[]|e].
    + rewrite (read_packet_decrypts _ _ c1)
        by first [rewrite He'; exact He | rewrite Hc'; reflexivity].
      fold d2 c2. rewrite read_loop_with_cipher, Hrest.
      eexists. split; [reflexivity |]. repeat split.
    + subst y0. eexists. split; [reflexivity |].
      repeat split. discriminate.
  - rewrite read_packet_plain in Hrun by exact He.
    rewrite <- feed_feed in Hrun.
    destruct (read_loop_split fuel part2 (feed part1 w) y)
      as (r & w' & Hshort & Hrest);
      [apply wf_feed; exact Hwf | exact Hrun |].
    rewrite read_packet_plain by exact He. rewrite Hshort.
    destruct (read_loop_crypto _ _ _ _ Hshort) as [He' _].
    destruct r as [[]|e].
    + rewrite read_packet_plain by (rewrite He'; exact He).
      exists y. split; [exact Hrest |]. repeat split.
    + subst y. eexists. split; [reflexivity |].
      repeat split. discriminate.
Qed.

(** And of the decoder once more: a frame is at least one byte long, so
    an attempt that returns has consumed something. *)
Hypothesis decode_progress :
  ∀ (id : Z * Z) (cs : CompState) (bs : list byte) (p : option Packet)
    (k : nat),
    decode id cs bs = (Ok p, k) → 0 < k.

(** The loop ends: each iteration that does not end it shortens the unread
    part of the buffer. *)
Lemma read_loop_total :
  ∀ (n : nat) (w : World),
    BoundBuffer.wf (rbuff (net w)) →
    length (BoundBuffer.unread (rbuff (net w))) ≤ n →
    ∃ x, read_loop (S n) w = Some x.
Proof using decode_stable decode_progress.
  induction n as [|n IH]; intros w Hwf Hlen; rewrite read_loop_step;
    cbn zeta; destruct (next_attempt w) as [r k] eqn:Hattempt;
    cbn [fst snd]; (destruct r as [o|e];
      [| destruct (is_underflow e); eauto]);
    (assert (Hk : 0 < k) by (eapply decode_progress; exact Hattempt));
    (destruct (next_attempt_feed [] w (Ok o) k Hwf Hattempt) as [Hle _];
      [discriminate |]); [lia |].
  set (w2 := with_rbuff
               (BoundBuffer.advance k (BoundBuffer.save (rbuff (net w)))) w).
  assert (Hwf2 : BoundBuffer.wf (rbuff (net w2)))
    by (apply wf_advance; assumption).
  assert (Hlen2 : length (BoundBuffer.unread (rbuff (net w2))) ≤ n).
  { unfold BoundBuffer.unread in *. simpl. rewrite length_drop in *.
    lia. }
  destruct o as [p|]; [| apply IH; assumption].
  pose proof (wire_frame_preserves (emit_decoded p) w2
                (wire_frame_emit_decoded p)) as (Hb & _ & _).
  destruct (emit_decoded p w2) as [[[]|e] w3]; cbn [fst snd] in Hb; [| eauto].
  apply IH; rewrite Hb; assumption.
Qed.

Lemma read_packet_total :
  ∀ (data : list byte) (w : World),
    BoundBuffer.wf (rbuff (net w)) →
    ∃ bound, ∀ fuel, bound ≤ fuel → ∃ y, read_packet fuel data w = Some y.
Proof using decode_stable decode_progress.
  intros data w Hwf.
  assert (Hloop : ∀ v, BoundBuffer.wf (rbuff (net v)) →
            ∃ bound, ∀ fuel, bound ≤ fuel → ∃ y, read_loop fuel v = Some y).
  { intros v Hv.
    destruct (read_loop_total _ v Hv (Nat.le_refl _)) as [y Hy].
    eexists. intros fuel Hfuel. exists y.
    eapply read_loop_fuel_mono; [exact Hy | exact Hfuel]. }
  destruct (encrypted (net w)) eqn:He.
  - destruct (cipher (net w)) as [| |c] eqn:Hc.
    1, 2: exists 0; intros fuel _;
          destruct (read_packet_without_cipher fuel data w) as [e Hraise];
          [exact He | rewrite Hc; reflexivity | eauto].
    destruct (Hloop (with_cipher (Obj (decrypt c data).2)
                       (feed (decrypt c data).1 w))) as [bound Hbound];
      [apply (wf_feed _ w Hwf) |].
    exists bound. intros fuel Hfuel.
    rewrite (read_packet_decrypts _ _ c) by assumption. auto.
  - destruct (Hloop (feed data w)) as [bound Hbound];
      [apply wf_feed; exact Hwf |].
    exists bound. intros fuel Hfuel.
    rewrite read_packet_plain by exact He. auto.
Qed.

(** C5.  For a byte sequence cut at any point, [read_packet] on the first
    part followed by [read_packet] on the second ends the way one
    [read_packet] on the whole sequence ends, with the same notifications in
    the same order on the bus and, when the calls return, in the same state.
    Both runs end once the loop is given enough iterations. *)
Theorem read_packet_split_equivalence :
  ∀ (part1 part2 : list byte) (w : World),
    BoundBuffer.wf (rbuff (net w)) →
    ∃ bound, ∀ fuel, bound ≤ fuel →
      ∃ x y,
        read_twice fuel part1 part2 w = Some x ∧
        read_packet fuel (part1 ++ part2) w = Some y ∧
        same_messages x y.
Proof using decode_stable decrypt_stream decode_progress.
  intros part1 part2 w Hwf.
  destruct (read_packet_total (part1 ++ part2) w Hwf) as [bound Hbound].
  exists bound. intros fuel Hfuel.
  destruct (Hbound fuel Hfuel) as [y Hy].
  destruct (read_packet_split fuel part1 part2 w y Hwf Hy) as (x & Hx & Hsame).
  exists x, y. auto.
Qed.

End Stream.

End Split.

(** * Further properties of the plugin *)

(** ** What packet handlers and decoding leave alone *)

Lemma preserves_ret : ∀ {A B} (f : World → B) (a : A), preserves f (mret a).
Proof. intros A B f a w. reflexivity. Qed.

Lemma preserves_raise :
  ∀ {A B} (f : World → B) (e : exn), preserves f (raise (A := A) e).
Proof. intros A B f e w. reflexivity. Qed.

Lemma preserves_bind :
  ∀ {A B C} (f : World → C) (m : M A) (k : A → M B),
    preserves f m → (∀ a, preserves f (k a)) → preserves f (m ≫= k).
Proof.
  intros A B C f m k Hm Hk w. unfold mbind, M_bind, bind.
  specialize (Hm w). destruct (m w) as [[a|e] w']; simpl in *.
  - rewrite Hk. exact Hm.
  - exact Hm.
Qed.

Lemma outbound_eq :
  ∀ (w w' : World),
    outbound w' = outbound w →
    ssock w' = ssock w ∧ plugin w' = plugin w ∧
    kill_event w' = kill_event w ∧
    host (net w') = host (net w) ∧ port (net w') = port (net w) ∧
    connected (net w') = connected (net w) ∧
    sbuff (net w') = sbuff (net w).
Proof.
  unfold outbound. intros w w' Heq. injection Heq. intros. repeat split;
    assumption.
Qed.

Lemma preserves_outbound_set_proto_state :
  ∀ (state : Z), preserves outbound (set_proto_state state).
Proof.
  intros state. unfold set_proto_state. apply preserves_bind.
  - intros w. reflexivity.
  - intros _. destruct (state_lookup state); intros w; reflexivity.
Qed.

Lemma preserves_outbound_set_comp_state :
  ∀ (threshold : Z), preserves outbound (set_comp_state threshold).
Proof.
  intros threshold w. rewrite set_comp_state_run.
  destruct (0 <=? threshold)%Z; reflexivity.
Qed.

Lemma preserves_outbound_packet_field :
  ∀ (packet : payload) (key : string),
    preserves outbound (packet_field packet key).
Proof.
  intros packet key w. unfold packet_field.
  destruct packet; try reflexivity. destruct (data p !! key); reflexivity.
Qed.

Lemma preserves_outbound_int_field :
  ∀ (packet : payload) (key : string),
    preserves outbound (int_field packet key).
Proof.
  intros packet key. unfold int_field.
  apply preserves_bind; [apply preserves_outbound_packet_field |].
  intros [z| |]; intros w; reflexivity.
Qed.

Lemma preserves_outbound_packet_handlers :
  Forall (λ entry, ∀ name data, preserves outbound (entry.2 name data))
    packet_handlers.
Proof.
  unfold packet_handlers. repeat constructor; simpl; intros name packet.
  - unfold handle_disconnect.
    apply preserves_bind; [apply preserves_outbound_packet_field |].
    intros reason.
    apply preserves_bind; [intros w; reflexivity | intros _ w; reflexivity].
  - unfold handle_handshake.
    apply preserves_bind; [apply preserves_outbound_int_field |].
    apply preserves_outbound_set_proto_state.
  - apply preserves_outbound_set_proto_state.
  - unfold handle_comp.
    apply preserves_bind; [apply preserves_outbound_int_field |].
    apply preserves_outbound_set_comp_state.
  - unfold handle_comp.
    apply preserves_bind; [apply preserves_outbound_int_field |].
    apply preserves_outbound_set_comp_state.
Qed.

Lemma preserves_outbound_emit_packet :
  ∀ (name : ename) (data : payload),
    preserves outbound (emit_packet name data).
Proof.
  intros name data. unfold emit_packet, emit_to.
  apply preserves_bind; [intros w; reflexivity |]. intros _.
  pose proof preserves_outbound_packet_handlers as Htable.
  induction Htable as [|[n h] table Hh _ IH]; simpl.
  - apply preserves_ret.
  - apply preserves_bind; [| intros _; exact IH].
    destruct (decide (name = Name n)); [apply Hh | apply preserves_ret].
Qed.

Lemma preserves_outbound_emit_decoded :
  ∀ (packet : Packet), preserves outbound (emit_decoded packet).
Proof.
  intros packet. unfold emit_decoded.
  apply preserves_bind; [apply preserves_outbound_emit_packet |].
  intros _. apply preserves_outbound_emit_packet.
Qed.

Lemma read_loop_outbound :
  ∀ (fuel : nat) (w w' : World) (r : Res unit),
    read_loop fuel w = Some (r, w') → outbound w' = outbound w.
Proof.
  induction fuel as [|fuel IH]; intros w w' r Hrun; [discriminate |].
  rewrite read_loop_step in Hrun. cbn zeta in Hrun.
  destruct (next_attempt w) as [[[p|]|e] k]; cbn [fst snd] in Hrun.
  - pose proof (preserves_outbound_emit_decoded p
                  (with_rbuff (BoundBuffer.advance k
                     (BoundBuffer.save (rbuff (net w)))) w)) as Hp.
    destruct (emit_decoded p _) as [[[]|e] w'']; cbn [fst snd] in Hp.
    + rewrite (IH _ _ _ Hrun). exact Hp.
    + injection Hrun as _ <-. exact Hp.
  - rewrite (IH _ _ _ Hrun). reflexivity.
  - destruct (is_underflow e); injection Hrun as _ <-; reflexivity.
Qed.

(** X1.  Whatever bytes arrive and however the call ends, [read_packet]
    leaves the socket wrapper (its [sending] flag and its socket), the
    plugin, the kill flag, and the connection's [host], [port], [connected]
    and send buffer as they were: decoding and the packet handlers it
    triggers never queue output, never ask for writability and never
    disconnect. *)
Theorem read_packet_leaves_outbound :
  ∀ (fuel : nat) (data : list byte) (w w' : World) (r : Res unit),
    read_packet fuel data w = Some (r, w') →
    outbound w' = outbound w.
Proof.
  intros fuel data w w' r Hrun. unfold read_packet, cipher_call in Hrun.
  unfold_M. destruct (encrypted (net w)).
  - destruct (cipher (net w)) as [| |c]; simpl in Hrun;
      try (injection Hrun as _ <-; reflexivity).
    rewrite (read_loop_outbound _ _ _ _ Hrun). reflexivity.
  - simpl in Hrun. rewrite (read_loop_outbound _ _ _ _ Hrun). reflexivity.
Qed.

(** ** [push] *)

(** The bus delivers a packet's [ident] to no handler, and its [str_ident]
    to the handler registered under that name. *)
Lemma emit_packet_ident :
  ∀ (i : Z * Z * Z) (data : payload) (w : World),
    emit_packet (Ident i) data w = record_event (Ident i) data w.
Proof. intros i data w. reflexivity. Qed.

Lemma bind_ret_tt : ∀ (m : M unit) (w : World), (m ≫= λ _, mret tt) w = m w.
Proof.
  intros m w. unfold mbind, M_bind, bind.
  destruct (m w) as [[[]|e] w']; reflexivity.
Qed.

Lemma emit_packet_handshake :
  ∀ (data : payload) (w : World),
    emit_packet (Name "HANDSHAKE>Handshake") data w
    = (record_event (Name "HANDSHAKE>Handshake") data;;
       handle_handshake (Name "HANDSHAKE>Handshake") data) w.
Proof.
  intros data w. unfold emit_packet, emit_to, packet_handlers. simpl.
  unfold mbind, M_bind, bind. simpl.
  destruct (handle_handshake _ _ _) as [[[]|e] w']; reflexivity.
Qed.

Lemma emit_packet_login_success :
  ∀ (data : payload) (w : World),
    emit_packet (Name "LOGIN<Login Success") data w
    = (record_event (Name "LOGIN<Login Success") data;;
       handle_login_success (Name "LOGIN<Login Success") data) w.
Proof.
  intros data w. unfold emit_packet, emit_to, packet_handlers. simpl.
  unfold mbind, M_bind, bind. simpl.
  destruct (handle_login_success _ _ _) as [[[]|e] w']; reflexivity.
Qed.

Lemma emit_packet_disconnect :
  ∀ (data : payload) (w : World),
    emit_packet (Name "PLAY<Disconnect") data w
    = (record_event (Name "PLAY<Disconnect") data;;
       handle_disconnect (Name "PLAY<Disconnect") data) w.
Proof.
  intros data w. unfold emit_packet, emit_to, packet_handlers. simpl.
  unfold mbind, M_bind, bind. simpl.
  destruct (handle_disconnect _ _ _) as [[[]|e] w']; reflexivity.
Qed.

(** [push] after its first line: the notifications, then the flag. *)
Lemma push_plain :
  ∀ (packet : Packet) (w : World),
    encrypted (net w) = false →
    push packet w
    = (emit_decoded packet;; modify_ssock (set_sending true))
        (set_net (set_sbuff (sbuff (net w)
                             ++ encode packet (comp_state (net w))
                                  (comp_threshold (net w))) (net w)) w).
Proof.
  intros packet w He.
  unfold push, emit_decoded, mbind, M_bind, bind, get, modify_net,
    modify_ssock, modify, mret, M_ret, ret.
  rewrite He. cbn -[emit_packet].
  destruct (emit_packet (Ident _) _ _) as [[[]|e] w']; [| reflexivity].
  destruct (emit_packet (Name _) _ _) as [[[]|e] w'']; reflexivity.
Qed.

Lemma push_encrypted :
  ∀ (packet : Packet) (c : Cipher) (w : World),
    encrypted (net w) = true →
    cipher (net w) = Obj c →
    let frame := encode packet (comp_state (net w)) (comp_threshold (net w)) in
    push packet w
    = (emit_decoded packet;; modify_ssock (set_sending true))
        (set_net (set_sbuff (sbuff (net w) ++ (encrypt c frame).1)
                    (set_cipher (Obj (encrypt c frame).2) (net w))) w).
Proof.
  intros packet c w He Hc.
  unfold push, emit_decoded, cipher_call, mbind, M_bind, bind, get,
    modify_net, modify_ssock, modify, mret, M_ret, ret.
  rewrite He, Hc. cbn -[emit_packet encrypt encode].
  destruct (emit_packet (Ident _) _ _) as [[[]|e] w']; [| reflexivity].
  destruct (emit_packet (Name _) _ _) as [[[]|e] w'']; reflexivity.
Qed.

(** X2.  On a connection without encryption, [push] appends to the send
    buffer the packet encoded under the compression state and threshold in
    force when it is called, whatever the packet's handlers do afterwards
    and even when one of them raises.  The socket wrapper's [sending] flag
    is set when [push] returns and is left as it was when it raises: the
    frame is then queued without write interest. *)
Theorem push_queues_frame :
  ∀ (packet : Packet) (w : World),
    encrypted (net w) = false →
    let frame := encode packet (comp_state (net w)) (comp_threshold (net w)) in
    let w' := exec (push packet) w in
    sbuff (net w') = sbuff (net w) ++ frame ∧
    sending (ssock w')
    = match outcome (push packet) w with
      | Ok _ => true
      | Raise _ => sending (ssock w)
      end ∧
    connected (net w') = connected (net w).
Proof.
  intros packet w He frame w'. subst w'. unfold exec, outcome.
  rewrite push_plain by exact He. fold frame.
  set (w1 := set_net (set_sbuff (sbuff (net w) ++ frame) (net w)) w).
  pose proof (preserves_outbound_emit_decoded packet w1) as Hout.
  unfold mbind, M_bind, bind.
  destruct (emit_decoded packet w1) as [[[]|e] w2]; simpl in *;
    apply outbound_eq in Hout as (Hs & _ & _ & _ & _ & Hc & Hb);
    simpl in *; rewrite ?Hs, Hb, Hc; auto.
Qed.

(** X3.  On an encrypted connection, what [push] appends is the
    ciphertext of that frame, and the cipher object moves on by it. *)
Theorem push_encrypts_frame :
  ∀ (packet : Packet) (c : Cipher) (w : World),
    encrypted (net w) = true →
    cipher (net w) = Obj c →
    let frame := encode packet (comp_state (net w)) (comp_threshold (net w)) in
    let w' := exec (push packet) w in
    sbuff (net w') = sbuff (net w) ++ (encrypt c frame).1 ∧
    cipher (net w') = Obj (encrypt c frame).2 ∧
    encrypted (net w') = true.
Proof.
  intros packet c w He Hc frame w'. subst w'. unfold exec.
  rewrite (push_encrypted _ c) by assumption. fold frame.
  set (w1 := set_net _ w).
  pose proof (preserves_outbound_emit_decoded packet w1) as Hout.
  pose proof (wire_frame_preserves (emit_decoded packet) w1
                (wire_frame_emit_decoded packet)) as (_ & Hci & Hen).
  unfold mbind, M_bind, bind.
  destruct (emit_decoded packet w1) as [[[]|e] w2]; simpl in *;
    apply outbound_eq in Hout as (_ & _ & _ & _ & _ & _ & Hb);
    simpl in *; rewrite Hb, Hci, Hen; auto.
Qed.

(** X4.  Pushing a handshake packet moves the engine itself: the frame is
    queued as encoded before the switch, the two notifications of the
    packet are followed by the new state's, [proto_state] becomes the
    packet's [next_state], and write interest is set. *)
Theorem push_handshake_switches_state :
  ∀ (packet : Packet) (state : Z) (s : string) (w : World),
    encrypted (net w) = false →
    str_ident packet = "HANDSHAKE>Handshake" →
    data packet !! "next_state" = Some (VInt state) →
    state_lookup state = Some s →
    push packet w
    = (Ok tt,
       set_ssock (set_sending true (ssock w))
         (set_events
            (events w ++ [(Ident (ident packet), PPacket packet);
                          (Name "HANDSHAKE>Handshake", PPacket packet);
                          (Name (s +:+ "_STATE"), PNone)])
            (set_net
               (set_proto_state_attr state
                  (set_sbuff
                     (sbuff (net w)
                      ++ encode packet (comp_state (net w))
                           (comp_threshold (net w)))
                     (net w)))
               w))).
Proof.
  intros packet state s w He Hname Hnext Hs.
  rewrite push_plain by exact He. unfold emit_decoded.
  rewrite Hname. unfold mbind, M_bind, bind.
  rewrite emit_packet_ident. simpl.
  rewrite emit_packet_handshake. unfold mbind, M_bind, bind. simpl.
  rewrite (handle_handshake_run packet state s) by assumption. simpl.
  rewrite <- !app_assoc. reflexivity.
Qed.

(** X5.  [push] is not all-or-nothing.  A handshake packet without a
    [next_state] field makes its handler raise [KeyError] out of [push]:
    by then the frame is in the send buffer and both notifications are on
    the bus, but the [sending] flag has not been set. *)
Theorem push_handler_failure_leaves_frame_queued :
  ∀ (packet : Packet) (w : World),
    encrypted (net w) = false →
    str_ident packet = "HANDSHAKE>Handshake" →
    data packet !! "next_state" = None →
    push packet w
    = (Raise (KeyError (VStr "next_state")),
       set_events
         (events w ++ [(Ident (ident packet), PPacket packet);
                       (Name "HANDSHAKE>Handshake", PPacket packet)])
         (set_net
            (set_sbuff
               (sbuff (net w)
                ++ encode packet (comp_state (net w))
                     (comp_threshold (net w)))
               (net w))
            w)).
Proof.
  intros packet w He Hname Hnext.
  rewrite push_plain by exact He. unfold emit_decoded.
  rewrite Hname. unfold mbind, M_bind, bind.
  rewrite emit_packet_ident. simpl.
  rewrite emit_packet_handshake. unfold mbind, M_bind, bind. simpl.
  unfold handle_handshake, int_field, packet_field, mbind, M_bind, bind.
  rewrite Hnext. simpl. rewrite <- !app_assoc. reflexivity.
Qed.

(** ** Flushing *)

(** X6.  What [push] queued is flushed by the driver: the next [poll]
    reports the socket writable when the system says so, a [handleSEND]
    that gets every pending byte accepted empties the send buffer, and the
    [poll] after that no longer asks for writability. *)
Theorem push_poll_send_flushes :
  ∀ (packet : Packet) (timeout : Z) (name : ename) (data : payload)
    (w : World),
    encrypted (net w) = false →
    connected (net w) = true →
    outcome (push packet) w = Ok tt →
    let writable := Readiness false true false in
    let w1 := exec (push packet) w in
    let w2 := exec (poll timeout writable) w1 in
    let w3 := exec (handleSEND (Ok (length (sbuff (net w2)))) name data) w2 in
    outcome (poll timeout writable) w1 = Ok ["SOCKET_SEND"] ∧
    sbuff (net w2)
    = sbuff (net w) ++ encode packet (comp_state (net w))
                         (comp_threshold (net w)) ∧
    sbuff (net w3) = [] ∧
    outcome (poll timeout writable) w3 = Ok [].
Proof.
  intros packet timeout name data w He Hconn Hok writable w1 w2 w3.
  destruct (push_queues_frame packet w He) as (Hs & Hflag & Hc).
  rewrite Hok in Hflag. fold w1 in Hs, Hflag, Hc.
  assert (H2 : w2 = set_ssock (set_sending false (ssock w1)) w1).
  { subst w2. unfold exec, writable. rewrite poll_ready, Hflag. reflexivity. }
  assert (Hconn2 : connected (net w2) = true).
  { rewrite H2. simpl. rewrite Hc. exact Hconn. }
  destruct (handleSEND_accepts (length (sbuff (net w2))) name data w2 Hconn2)
    as (_ & Hs3 & Hsock3 & _).
  fold w3 in Hs3, Hsock3. rewrite drop_all in Hs3.
  split; [unfold outcome, writable; rewrite poll_ready, Hflag; reflexivity |].
  split; [rewrite H2; exact Hs |].
  split; [exact Hs3 |].
  unfold outcome, writable. rewrite poll_ready, Hsock3, H2. reflexivity.
Qed.

(** X7.  A [send] that fails ends the connection: [handleSEND] prints the
    error, emits ['SOCKET_ERR'] with it, and the handler of that
    notification resets the engine and emits ['disconnect'] with the same
    error as cause.  The pending output is lost with the reset. *)
Theorem handleSEND_failure_resets :
  ∀ (msg : string) (name : ename) (data : payload) (w : World),
    connected (net w) = true →
    handleSEND (Raise (OSError msg)) name data w
    = (Ok tt,
       {| net := NetCore_init (net w);
          ssock := SelectSocket.reset (ssock w);
          plugin := plugin w;
          events := events w ++ [(Name "SOCKET_ERR", PExn (OSError msg));
                                 (Name "disconnect", PExn (OSError msg))];
          kill_event := kill_event w || sock_quit (plugin w);
          stdout := stdout w ++ [[PExn (OSError msg)];
                                 [PStr "Socket Error:";
                                  PExn (OSError msg)]] |}).
Proof.
  intros msg name data w Hconn.
  unfold handleSEND, try_except, syscall, print, mbind, M_bind, bind, get,
    modify.
  rewrite Hconn. cbn -[emit_socket].
  rewrite emit_socket_err. unfold record_event, modify, mbind, M_bind, bind.
  rewrite handleERR_run. simpl. rewrite <- !app_assoc. reflexivity.
Qed.

(** ** Receiving *)

(** X8.  A decode failure is not a socket error.  When [read_packet]
    raises anything but an [OSError], [handleRECV] lets it through: no
    ['SOCKET_ERR'] is emitted, the engine is not reset, and the connection
    is still marked connected. *)
Theorem handleRECV_decode_failure_escapes :
  ∀ (fuel : nat) (b : byte) (received : list byte) (e : exn)
    (name : ename) (data : payload) (w w' : World),
    connected (net w) = true →
    read_packet fuel (b :: received) w = Some (Raise e, w') →
    (∀ msg, e ≠ OSError msg) →
    handleRECV fuel (Ok (b :: received)) name data w = Some (Raise e, w') ∧
    connected (net w') = true.
Proof.
  intros fuel b received e name data w w' Hconn Hrun Hnot.
  split.
  - unfold handleRECV. rewrite Hconn, Hrun.
    destruct e; try reflexivity. exfalso. eapply Hnot. reflexivity.
  - apply read_packet_leaves_outbound, outbound_eq in Hrun
      as (_ & _ & _ & _ & _ & Hc & _).
    rewrite Hc. exact Hconn.
Qed.

Lemma read_packet_crypto :
  ∀ (fuel : nat) (data : list byte) (w w' : World) (r : Res unit),
    read_packet fuel data w = Some (r, w') →
    encrypted (net w') = encrypted (net w) ∧
    is_obj (cipher (net w')) = is_obj (cipher (net w)).
Proof.
  intros fuel data w w' r Hrun.
  destruct (encrypted (net w)) eqn:He.
  - destruct (cipher (net w)) as [| |c] eqn:Hc.
    1, 2: destruct (read_packet_without_cipher fuel data w) as [e Hraise];
          [exact He | rewrite Hc; reflexivity |];
          rewrite Hraise in Hrun; injection Hrun as _ <-;
          rewrite He, Hc; auto.
    rewrite (read_packet_decrypts _ _ c) in Hrun by assumption.
    apply read_loop_crypto in Hrun as [-> ->]. simpl. auto.
  - rewrite read_packet_plain in Hrun by exact He.
    apply read_loop_crypto in Hrun as [-> ->]. simpl. auto.
Qed.

(** X9.  [read_packet] keeps the cipher in step with the [encrypted]
    flag: if a cipher object is present exactly when [encrypted] is set
    before the call, so it is after, however the call ends. *)
Theorem read_packet_keeps_cipher_invariant :
  ∀ (fuel : nat) (data : list byte) (w w' : World) (r : Res unit),
    cipher_invariant (net w) →
    read_packet fuel data w = Some (r, w') →
    cipher_invariant (net w').
Proof.
  unfold cipher_invariant. intros fuel data w w' r Hinv Hrun.
  apply read_packet_crypto in Hrun as [-> ->]. exact Hinv.
Qed.

(** X10.  [push] keeps the cipher in step with the [encrypted] flag as
    well, with any packet and whatever its handlers do. *)
Theorem push_keeps_cipher_invariant :
  ∀ (packet : Packet) (w : World),
    cipher_invariant (net w) →
    cipher_invariant (net (exec (push packet) w)).
Proof.
  unfold cipher_invariant. intros packet w Hinv.
  destruct (encrypted (net w)) eqn:He.
  - destruct (cipher (net w)) as [| |c] eqn:Hc; try discriminate.
    destruct (push_encrypts_frame packet c w He Hc) as (_ & -> & ->).
    reflexivity.
  - unfold exec. rewrite push_plain by exact He.
    set (w1 := set_net _ w).
    pose proof (wire_frame_preserves (emit_decoded packet) w1
                  (wire_frame_emit_decoded packet)) as (_ & Hci & Hen).
    unfold mbind, M_bind, bind.
    destruct (emit_decoded packet w1) as [[[]|e] w2]; simpl in *;
      rewrite Hci, Hen, He; exact Hinv.
Qed.

Section EmptyRead.

(** A cipher that is given nothing returns nothing and stays as it is. *)
Hypothesis decrypt_nil : ∀ (c : Cipher), decrypt c [] = ([], c).

Lemma feed_nil : ∀ (w : World), feed [] w = w.
Proof.
  intros [n s p ev k out]. destruct n as [? ? ? ? ? ? ? ? [bs ps mk] ?].
  unfold feed, with_rbuff, BoundBuffer.append. simpl.
  rewrite app_nil_r. reflexivity.
Qed.

(** X11.  Once [read_packet] has returned, calling it again with no new
    bytes ([read_packet()] with its default argument) changes nothing and
    emits nothing: the buffer holds a partial frame at most, the attempt
    underflows again and is reverted. *)
Theorem read_packet_empty_is_noop :
  ∀ (fuel fuel' : nat) (data : list byte) (w w' : World),
    read_packet fuel data w = Some (Ok tt, w') →
    read_packet (S fuel') [] w' = Some (Ok tt, w').
Proof using decrypt_nil.
  intros fuel fuel' data w w' Hrun.
  destruct (read_packet_normal_return _ _ _ _ Hrun) as [[k Hnext] Hsaved].
  assert (Hloop : read_loop (S fuel') w' = Some (Ok tt, w')).
  { rewrite (read_loop_failed_attempt fuel' w' _ k Hnext). simpl.
    rewrite <- Hsaved. destruct w' as [n s p ev kl out], n. reflexivity. }
  destruct (encrypted (net w')) eqn:He.
  - destruct (cipher (net w')) as [| |c] eqn:Hc.
    1, 2: exfalso;
          destruct (read_packet_crypto _ _ _ _ _ Hrun) as [He' Hc'];
          rewrite He in He'; rewrite Hc in Hc'; simpl in Hc';
          destruct (read_packet_without_cipher fuel data w) as [e Hraise];
          [congruence | congruence |]; congruence.
    rewrite (read_packet_decrypts _ _ c) by assumption.
    rewrite decrypt_nil. cbn [fst snd]. rewrite feed_nil.
    replace (with_cipher (Obj c) w') with w'; [exact Hloop |].
    destruct w' as [n s p ev kl out], n. simpl in Hc. subst. reflexivity.
  - rewrite read_packet_plain by exact He. rewrite feed_nil. exact Hloop.
Qed.

End EmptyRead.

(** ** Control packets: edge cases *)

(** X12.  A handshake whose [next_state] is not a state of
    [state_lookup] makes [handle_handshake] raise [KeyError] -- after the
    value has been stored: the engine is left in the unknown protocol
    state, and no state notification is emitted. *)
Theorem handle_handshake_unknown_state :
  ∀ (handshake : Packet) (state : Z) (name : ename) (w : World),
    data handshake !! "next_state" = Some (VInt state) →
    state_lookup state = None →
    handle_handshake name (PPacket handshake) w
    = (Raise (KeyError (VInt state)),
       set_net (set_proto_state_attr state (net w)) w).
Proof.
  intros handshake state name w Hnext Hnone.
  unfold handle_handshake, int_field, packet_field, set_proto_state.
  unfold_M. rewrite Hnext. simpl. rewrite Hnone. reflexivity.
Qed.

(** X13.  A control packet that lacks the field its handler reads --
    [next_state], [threshold], [reason] -- makes the handler raise
    [KeyError] with that field's name and leaves the world untouched. *)
Theorem handlers_missing_field :
  ∀ (packet : Packet) (name : ename) (w : World),
    data packet !! "next_state" = None →
    data packet !! "threshold" = None →
    data packet !! "reason" = None →
    handle_handshake name (PPacket packet) w
    = (Raise (KeyError (VStr "next_state")), w) ∧
    handle_comp name (PPacket packet) w
    = (Raise (KeyError (VStr "threshold")), w) ∧
    handle_disconnect name (PPacket packet) w
    = (Raise (KeyError (VStr "reason")), w).
Proof.
  intros packet name w Hn Ht Hr.
  unfold handle_handshake, handle_comp, handle_disconnect, int_field,
    packet_field.
  unfold_M. rewrite Hn, Ht, Hr. auto.
Qed.

(** ** Control packets met while decoding *)

Lemma emit_decoded_login_success :
  ∀ (packet : Packet) (s : string) (w : World),
    str_ident packet = "LOGIN<Login Success" →
    state_lookup PLAY_STATE = Some s →
    emit_decoded packet w
    = (Ok tt,
       set_events
         (events w ++ [(Ident (ident packet), PPacket packet);
                       (Name "LOGIN<Login Success", PPacket packet);
                       (Name (s +:+ "_STATE"), PNone)])
         (set_net (set_proto_state_attr PLAY_STATE (net w)) w)).
Proof.
  intros packet s w Hname Hs. unfold emit_decoded. rewrite Hname.
  unfold mbind, M_bind, bind. rewrite emit_packet_ident. simpl.
  rewrite emit_packet_login_success. unfold mbind, M_bind, bind. simpl.
  unfold handle_login_success.
  rewrite (set_proto_state_run _ s) by exact Hs. simpl.
  rewrite <- !app_assoc. reflexivity.
Qed.

(** X14.  The protocol state changes between two frames of one read.  When
    the loop of [read_packet] decodes a login-success packet, the packet's
    two notifications and the PLAY notification are on the bus and
    [proto_state] is PLAY before the next frame is parsed: what follows in
    the same buffer is decoded as PLAY traffic. *)
Theorem read_loop_login_success_switches_state :
  ∀ (fuel : nat) (packet : Packet) (k : nat) (s : string) (w : World),
    next_attempt w = (Ok (Some packet), k) →
    str_ident packet = "LOGIN<Login Success" →
    state_lookup PLAY_STATE = Some s →
    read_loop (S fuel) w
    = read_loop fuel
        (set_events
           (events w ++ [(Ident (ident packet), PPacket packet);
                         (Name "LOGIN<Login Success", PPacket packet);
                         (Name (s +:+ "_STATE"), PNone)])
           (set_net
              (set_proto_state_attr PLAY_STATE
                 (set_rbuff
                    (BoundBuffer.advance k (BoundBuffer.save (rbuff (net w))))
                    (net w)))
              w)).
Proof.
  intros fuel packet k s w Hnext Hname Hs.
  rewrite read_loop_step, Hnext. cbn [fst snd].
  rewrite (emit_decoded_login_success packet s) by assumption.
  reflexivity.
Qed.

Lemma emit_decoded_disconnect :
  ∀ (packet : Packet) (reason : value) (w : World),
    str_ident packet = "PLAY<Disconnect" →
    data packet !! "reason" = Some reason →
    emit_decoded packet w
    = (Ok tt,
       set_events
         (events w ++ [(Ident (ident packet), PPacket packet);
                       (Name "PLAY<Disconnect", PPacket packet);
                       (Name "disconnect", PVal reason)])
         (set_stdout (stdout w ++ [[PStr "Disconnected:"; PVal reason]]) w)).
Proof.
  intros packet reason w Hname Hreason. unfold emit_decoded. rewrite Hname.
  unfold mbind, M_bind, bind. rewrite emit_packet_ident. simpl.
  rewrite emit_packet_disconnect. unfold mbind, M_bind, bind. simpl.
  unfold handle_disconnect, packet_field. unfold_M. rewrite Hreason. simpl.
  rewrite <- !app_assoc. reflexivity.
Qed.

(** X15.  A disconnect packet from the server does not disconnect.  The
    loop prints the reason, emits ['disconnect'] with it, and goes on
    parsing the rest of the buffer: the connection, its protocol state and
    its socket are as they were. *)
Theorem read_loop_disconnect_goes_on :
  ∀ (fuel : nat) (packet : Packet) (k : nat) (reason : value) (w : World),
    next_attempt w = (Ok (Some packet), k) →
    str_ident packet = "PLAY<Disconnect" →
    data packet !! "reason" = Some reason →
    read_loop (S fuel) w
    = read_loop fuel
        (set_events
           (events w ++ [(Ident (ident packet), PPacket packet);
                         (Name "PLAY<Disconnect", PPacket packet);
                         (Name "disconnect", PVal reason)])
           (set_stdout (stdout w ++ [[PStr "Disconnected:"; PVal reason]])
              (with_rbuff
                 (BoundBuffer.advance k (BoundBuffer.save (rbuff (net w))))
                 w))).
Proof.
  intros fuel packet k reason w Hnext Hname Hreason.
  rewrite read_loop_step, Hnext. cbn [fst snd].
  rewrite (emit_decoded_disconnect packet reason) by assumption.
  reflexivity.
Qed.

Lemma emit_packet_set_compression :
  ∀ (data : payload) (w : World),
    emit_packet (Name "LOGIN<Set Compression") data w
    = (record_event (Name "LOGIN<Set Compression") data;;
       handle_comp (Name "LOGIN<Set Compression") data) w.
Proof.
  intros data w. unfold emit_packet, emit_to, packet_handlers. simpl.
  unfold mbind, M_bind, bind. simpl.
  destruct (handle_comp _ _ _) as [[[]|e] w']; reflexivity.
Qed.

(** X16.  Compression starts between two frames of one read.  When the
    loop decodes a compression announcement with a threshold that is not
    negative, [comp_state] is ON and the threshold is stored before the
    next frame is parsed: what follows in the same buffer is decoded in the
    compression-aware layout. *)
Theorem read_loop_set_compression_switches_layout :
  ∀ (fuel : nat) (packet : Packet) (k : nat) (threshold : Z) (w : World),
    next_attempt w = (Ok (Some packet), k) →
    str_ident packet = "LOGIN<Set Compression" →
    data packet !! "threshold" = Some (VInt threshold) →
    (0 ≤ threshold)%Z →
    read_loop (S fuel) w
    = read_loop fuel
        (set_events
           (events w ++ [(Ident (ident packet), PPacket packet);
                         (Name "LOGIN<Set Compression", PPacket packet)])
           (set_net
              (set_comp_state_attr PROTO_COMP_ON
                 (set_comp_threshold threshold
                    (set_rbuff
                       (BoundBuffer.advance k
                          (BoundBuffer.save (rbuff (net w))))
                       (net w))))
              w)).
Proof.
  intros fuel packet k threshold w Hnext Hname Hfield Hle.
  rewrite read_loop_step, Hnext. cbn [fst snd].
  unfold emit_decoded. rewrite Hname.
  unfold mbind, M_bind, bind. rewrite emit_packet_ident. simpl.
  rewrite emit_packet_set_compression. unfold mbind, M_bind, bind. simpl.
  unfold handle_comp, int_field, packet_field, mbind, M_bind, bind.
  rewrite Hfield. simpl. rewrite set_comp_state_run.
  apply Z.leb_le in Hle. rewrite Hle. simpl.
  rewrite <- !app_assoc. reflexivity.
Qed.

(** ** Reset and reconnect *)

(** X17.  A reset drops the pending output but not the write interest:
    after a [push] and a socket error, the send buffer is empty while the
    wrapper's [sending] flag, which [SelectSocket.reset] does not touch, is
    still set, so the next [poll] asks for writability with nothing to
    send. *)
Theorem reset_keeps_write_interest :
  ∀ (packet : Packet) (name : ename) (cause : payload) (timeout : Z)
    (w : World),
    encrypted (net w) = false →
    outcome (push packet) w = Ok tt →
    let w' := exec (handleERR name cause) (exec (push packet) w) in
    sbuff (net w') = [] ∧
    connected (net w') = false ∧
    sending (ssock w') = true ∧
    outcome (poll timeout (Readiness false true false)) w'
    = Ok ["SOCKET_SEND"].
Proof.
  intros packet name cause timeout w He Hok w'.
  destruct (push_queues_frame packet w He) as (_ & Hflag & _).
  rewrite Hok in Hflag.
  subst w'. unfold exec, outcome in *. rewrite poll_ready, handleERR_run.
  simpl. rewrite Hflag. auto.
Qed.

(** X18.  After a reset the engine is ready for a new connection: a
    [connect] that succeeds leaves it connected to the new address over a
    fresh non-blocking socket, in protocol state HANDSHAKE, with
    compression and encryption off and both buffers empty -- whatever state
    the old connection was in.  Only [cipher] keeps its old value. *)
Theorem connect_after_reset :
  ∀ (host0 : string) (port0 : Z) (w : World),
    let w' := exec (connect host0 port0 (Ok tt)) (exec reset w) in
    net w'
    = set_cipher (cipher (net w))
        (set_connected true
           (set_port (Some port0) (set_host (Some host0) NetCore_new))) ∧
    sock (ssock w')
    = {| blocking := false; peer := Some (host0, port0) |} ∧
    events w' = events w ++ [(Name "connect", PAddr host0 port0)].
Proof. intros host0 port0 w. unfold connect, reset. unfold_M. simpl. auto. Qed.

(** X19.  [connect] itself resets nothing.  Whether the attempt succeeds
    or fails, the protocol state, the compression and crypto state and both
    buffers are what they were: an engine reconnected without a reset goes
    on in the state, and with the buffered bytes, of the old connection. *)
Theorem connect_keeps_protocol_state :
  ∀ (host0 : string) (port0 : Z) (os : Res unit) (w : World),
    let n' := net (exec (connect host0 port0 os) w) in
    set_connected (connected (net w))
      (set_port (port (net w)) (set_host (host (net w)) n'))
    = net w.
Proof.
  intros host0 port0 os [n s p ev k out]. destruct n.
  unfold connect. unfold_M. destruct os as [[]|[]]; reflexivity.
Qed.

(** ** [poll] *)

(** X20.  [poll] consumes the write interest: whatever the first [poll]
    was answered, a second one that follows directly never reports
    ['SOCKET_SEND'], even when the system says the socket is writable. *)
Theorem poll_twice_no_send :
  ∀ (timeout1 timeout2 : Z) (os1 : select_result) (r wr x : bool)
    (w : World),
    let w' := exec (poll timeout1 os1) w in
    outcome (poll timeout2 (Readiness r wr x)) w'
    = Ok ((if r then ["SOCKET_RECV"] else []) ++
          (if x then ["SOCKET_ERR"] else [])).
Proof.
  intros timeout1 timeout2 os1 r wr x w w'.
  assert (Hs : sending (ssock w') = false).
  { subst w'. unfold exec. destruct os1 as [r1 wr1 x1|msg].
    - rewrite poll_ready. destruct (sending (ssock w)) eqn:Hw; simpl; auto.
    - pose proof (poll_select_failure_world timeout1 msg w) as Hw.
      unfold exec in Hw. rewrite Hw.
      destruct (sending (ssock w)) eqn:Hs; simpl; auto. }
  unfold outcome. rewrite poll_ready, Hs. simpl.
  rewrite andb_false_r. reflexivity.
Qed.

(** ** [tick] *)

Lemma emit_flag_recv :
  ∀ (fuel : nat) (os : os_answers) (w : World),
    emit_flag fuel os "SOCKET_RECV" w
    = handleRECV fuel (recv_answer os) (Name "SOCKET_RECV") PNone
        (set_events (events w ++ [(Name "SOCKET_RECV", PNone)]) w).
Proof. intros fuel os w. reflexivity. Qed.

Lemma emit_flag_send :
  ∀ (fuel : nat) (os : os_answers) (w : World),
    emit_flag fuel os "SOCKET_SEND" w
    = Some (handleSEND (send_answer os) (Name "SOCKET_SEND") PNone
              (set_events (events w ++ [(Name "SOCKET_SEND", PNone)]) w)).
Proof. intros fuel os w. reflexivity. Qed.

Lemma emit_flag_err :
  ∀ (fuel : nat) (os : os_answers) (w : World),
    emit_flag fuel os "SOCKET_ERR" w
    = Some (handleERR (Name "SOCKET_ERR") PNone
              (set_events (events w ++ [(Name "SOCKET_ERR", PNone)]) w)).
Proof. intros fuel os w. reflexivity. Qed.

Lemma handleSEND_disconnected :
  ∀ (os : Res nat) (name : ename) (data : payload) (w : World),
    connected (net w) = false → handleSEND os name data w = (Ok tt, w).
Proof.
  intros os name data w Hconn. unfold handleSEND. unfold_M.
  rewrite Hconn. reflexivity.
Qed.

(** X21.  A tick in which the peer has hung up.  The read of zero bytes
    resets the engine and emits ['disconnect'] with "Socket Hung Up"; the
    flags [poll] had already computed are still dispatched: a write flag
    finds the engine disconnected and no [send] is made, and an error flag
    resets once more and emits a second ['disconnect'], whose cause is
    [None]. *)
Theorem tick_hangup :
  ∀ (fuel : nat) (timeout : Z) (os : os_answers) (wr x : bool)
    (name : ename) (data : payload) (w : World),
    connected (net w) = true →
    select_answer os = Readiness true wr x →
    recv_answer os = Ok [] →
    ∃ w',
      tick fuel timeout os name data w = Some (Ok Polled, w') ∧
      net w' = NetCore_init (net w) ∧
      sock (ssock w') = fresh_socket ∧
      events w'
      = events w
        ++ [(Name "SOCKET_RECV", PNone); (Name "SOCKET_HUP", PNone);
            (Name "disconnect", PStr "Socket Hung Up")]
        ++ (if wr && sending (ssock w) then [(Name "SOCKET_SEND", PNone)]
            else [])
        ++ (if x then [(Name "SOCKET_ERR", PNone);
                       (Name "disconnect", PNone)]
            else []).
Proof.
  intros fuel timeout os wr x name data w Hconn Hsel Hrecv.
  unfold tick. rewrite Hconn, Hsel, poll_ready.
  set (w1 := if sending (ssock w) then _ else w).
  assert (Hc1 : connected (net w1) = true)
    by (subst w1; destruct (sending (ssock w)); exact Hconn).
  assert (Hn1 : net w1 = net w ∧ events w1 = events w)
    by (subst w1; destruct (sending (ssock w)); auto).
  destruct Hn1 as [Hn1 He1].
  cbn [app emit_flags]. rewrite emit_flag_recv, Hrecv.
  unfold handleRECV. cbn [net set_events]. rewrite Hc1.
  rewrite emit_socket_hup. unfold record_event, modify, mbind, M_bind, bind.
  rewrite handleHUP_run. cbn [fst snd net events set_events].
  rewrite Hn1, He1.
  destruct (wr && sending (ssock w)); destruct x; cbn [app emit_flags];
    repeat first
      [ rewrite emit_flag_send
      | rewrite emit_flag_err
      | rewrite handleSEND_disconnected by reflexivity
      | rewrite handleERR_run
      | progress cbn [app emit_flags] ];
    eexists; (split; [reflexivity |]); simpl;
    rewrite <- ?app_assoc; auto.
Qed.

(** X22.  A tick on an engine that is not connected touches nothing: no
    system call is made, nothing is emitted, and the tick sleeps, for one
    second when no timer is pending ([-1]) and for the timer's delay
    otherwise. *)
Theorem tick_idle_sleeps :
  ∀ (fuel : nat) (timeout : Z) (os : os_answers) (name : ename)
    (data : payload) (w : World),
    connected (net w) = false →
    (0 ≤ timeout)%Z ∨ timeout = (-1)%Z →
    tick fuel timeout os name data w
    = Some (Ok (Slept (if decide (timeout = (-1)%Z) then 1%Z else timeout)),
            w).
Proof.
  intros fuel timeout os name data w Hconn Hrange. unfold tick.
  rewrite Hconn. destruct (decide (timeout = (-1)%Z)); [reflexivity |].
  destruct Hrange as [Hle | ?]; [| contradiction].
  apply Z.ltb_ge in Hle. rewrite Hle. reflexivity.
Qed.

(** X23.  A tick whose readiness check fails dispatches nothing: the
    message of the error is printed, the write interest is consumed, and
    the connection and the bus are as they were. *)
Theorem tick_select_failure :
  ∀ (fuel : nat) (timeout : Z) (os : os_answers) (msg : string)
    (name : ename) (data : payload) (w : World),
    connected (net w) = true →
    select_answer os = SelectFails msg →
    tick fuel timeout os name data w
    = Some (Ok Polled,
            set_stdout (stdout w ++ [[PStr msg]])
              (set_ssock (set_sending false (ssock w)) w)).
Proof.
  intros fuel timeout os msg name data w Hconn Hsel. unfold tick.
  rewrite Hconn, Hsel.
  pose proof (poll_select_failure_reports_nothing timeout msg w) as Hout.
  pose proof (poll_select_failure_world timeout msg w) as Hw.
  unfold outcome, exec in *.
  destruct (poll timeout (SelectFails msg) w) as [r w1]. simpl in *.
  subst r w1. simpl.
  destruct w as [n [sd sk] p ev k out]. destruct sd; reflexivity.
Qed.

End Properties.


(** * The engine on the sample collaborators *)

#[local] Existing Instances Sample.mccrypto Sample.mcdata Sample.mcpacket.

(** ** The sample decoder and cipher meet the split property's demands *)

Lemma unpack_varint_app :
  ∀ (n : nat) (shift acc : N) (bs ext : list byte) (v : N) (used : nat),
    Sample.unpack_varint n shift acc bs = Sample.VarintOk v used →
    0 < used ∧ used ≤ length bs ∧
    Sample.unpack_varint n shift acc (bs ++ ext) = Sample.VarintOk v used.
Proof.
  induction n as [|n IH]; intros shift acc bs ext v used Hrun;
    [discriminate |].
  destruct bs as [|b bs]; [discriminate |]. simpl in *.
  destruct (N.testbit (Byte.to_N b) 7).
  - destruct (Sample.unpack_varint n _ _ bs) as [r u| |] eqn:Hrec;
      try discriminate.
    injection Hrun as <- <-.
    destruct (IH _ _ _ ext _ _ Hrec) as (_ & Hle & ->).
    repeat split; lia.
  - injection Hrun as <- <-. repeat split; lia.
Qed.

Lemma unpack_varint_too_long_app :
  ∀ (n : nat) (shift acc : N) (bs ext : list byte),
    Sample.unpack_varint n shift acc bs = Sample.VarintTooLong →
    n ≤ length bs ∧
    Sample.unpack_varint n shift acc (bs ++ ext) = Sample.VarintTooLong.
Proof.
  induction n as [|n IH]; intros shift acc bs ext Hrun;
    [split; [simpl; lia | reflexivity] |].
  destruct bs as [|b bs]; [discriminate |]. simpl in *.
  destruct (N.testbit (Byte.to_N b) 7); [| discriminate].
  destruct (Sample.unpack_varint n _ _ bs) as [r u| |] eqn:Hrec;
    try discriminate.
  destruct (IH _ _ _ ext Hrec) as [Hle ->]. split; [lia | reflexivity].
Qed.

Lemma sample_decode_stable :
  ∀ (id : Z * Z) (cs : CompState) (bs ext : list byte)
    (r : Res (option Packet)) (k : nat),
    decode id cs bs = (r, k) →
    r ≠ Raise BufferUnderflowException →
    k ≤ length bs ∧ decode id cs (bs ++ ext) = (r, k).
Proof.
  intros id cs bs ext r k Hrun Hr. simpl in *. unfold Sample.sample_decode in *.
  destruct (Sample.unpack_varint 5 0 0 bs) as [len used| |] eqn:Hlen.
  - destruct (unpack_varint_app _ _ _ _ ext _ _ Hlen) as (_ & Hused & ->).
    destruct (decide (length (drop used bs) < N.to_nat len)) as [Hshort|Hfull].
    { injection Hrun as <- <-. congruence. }
    rewrite length_drop in Hfull.
    rewrite drop_app_le by exact Hused.
    destruct (decide _) as [Hshort|_].
    { rewrite length_app, length_drop in Hshort. lia. }
    rewrite take_app_le by (rewrite length_drop; lia).
    injection Hrun as <- <-. split; [lia | reflexivity].
  - injection Hrun as <- <-. congruence.
  - destruct (unpack_varint_too_long_app _ _ _ _ ext Hlen) as [Hle ->].
    injection Hrun as <- <-. split; [exact Hle | reflexivity].
Qed.

Lemma sample_decode_progress :
  ∀ (id : Z * Z) (cs : CompState) (bs : list byte) (p : option Packet)
    (k : nat),
    decode id cs bs = (Ok p, k) → 0 < k.
Proof.
  intros id cs bs p k Hrun. simpl in *. unfold Sample.sample_decode in *.
  destruct (Sample.unpack_varint 5 0 0 bs) as [len used| |] eqn:Hlen.
  - destruct (unpack_varint_app _ _ _ _ [] _ _ Hlen) as (Hpos & _ & _).
    destruct (decide _); [discriminate | injection Hrun as _ <-; lia].
  - discriminate.
  - discriminate.
Qed.

Lemma sample_decrypt_stream :
  ∀ (c : Cipher) (a b : list byte),
    decrypt c (a ++ b)
    = ((decrypt c a).1 ++ (decrypt (decrypt c a).2 b).1,
       (decrypt (decrypt c a).2 b).2).
Proof. intros c a b. simpl. rewrite map_app. reflexivity. Qed.

(** The cipher undoes itself, as the spec asks of the primitive. *)
Lemma sample_decrypt_encrypt :
  ∀ (c : Cipher) (bs : list byte),
    (decrypt c (encrypt c bs).1).1 = bs.
Proof.
  intros c bs. simpl. rewrite map_map. rewrite <- (map_id bs) at 2.
  apply map_ext. intros b. destruct c, b; reflexivity.
Qed.

(** ** Runs on concrete bytes *)

(** A frame that announces five bytes and has one: the attempt underflows,
    [read_packet] returns, the two bytes are still unread. *)
Lemma read_loop_failed_attempt_witness :
  let w := feed Sample.frame_partial Sample.w_login in
  next_attempt w = (Raise BufferUnderflowException, 2) ∧
  read_loop 1 w
  = Some (Ok tt, with_rbuff (BoundBuffer.save (rbuff (net w))) w) ∧
  BoundBuffer.unread
    (rbuff (net (with_rbuff (BoundBuffer.save (rbuff (net w))) w)))
  = Sample.frame_partial.
Proof.
  split; [vm_compute; reflexivity |].
  split; [| vm_compute; reflexivity].
  apply (read_loop_failed_attempt 0
           (feed Sample.frame_partial Sample.w_login)
           BufferUnderflowException 2).
  vm_compute. reflexivity.
Defined.

(** A complete frame with an unknown packet id: the decoder's [KeyError]
    leaves [read_packet]. *)
Example read_packet_unknown_packet_raises :
  outcome_of (read_packet 3 Sample.frame_unknown Sample.w_login)
  = Some (Raise (KeyError (VInt 127))).
Proof. vm_compute. reflexivity. Qed.

(** Two frames in one read, the second one under the compression the first
    one announced, then the start of a third: both packets are announced,
    the engine ends in PLAY with compression on, and the partial frame
    waits in the buffer. *)
Example read_packet_two_frames :
  let bytes := Sample.frame_set_compression ++ Sample.frame_login_success
               ++ Sample.frame_partial in
  ∃ w, read_packet 3 bytes Sample.w_login = Some (Ok tt, w) ∧
       map fst (events w)
       = [Ident (2, 0, 3)%Z; Name "LOGIN<Set Compression";
          Ident (2, 0, 2)%Z; Name "LOGIN<Login Success"; Name "PLAY_STATE"] ∧
       proto_state (net w) = PLAY_STATE ∧
       comp_state (net w) = PROTO_COMP_ON ∧
       comp_threshold (net w) = 64%Z ∧
       BoundBuffer.unread (rbuff (net w)) = Sample.frame_partial.
Proof. eexists. split; [vm_compute; reflexivity |]. vm_compute. auto. Qed.

(** The same bytes cut in the middle of the second frame. *)
Lemma read_packet_split_equivalence_witness :
  let part1 := Sample.frame_set_compression
               ++ take 2 Sample.frame_login_success in
  let part2 := drop 2 Sample.frame_login_success ++ Sample.frame_partial in
  BoundBuffer.wf (rbuff (net Sample.w_login)) ∧
  ∃ bound, ∀ fuel, bound ≤ fuel →
    ∃ x y,
      read_twice fuel part1 part2 Sample.w_login = Some x ∧
      read_packet fuel (part1 ++ part2) Sample.w_login = Some y ∧
      same_messages x y.
Proof.
  split; [vm_compute; lia |].
  apply (read_packet_split_equivalence sample_decode_stable
           sample_decrypt_stream sample_decode_progress).
  vm_compute. lia.
Defined.

Example read_twice_evaluated :
  let part1 := Sample.frame_set_compression
               ++ take 2 Sample.frame_login_success in
  let part2 := drop 2 Sample.frame_login_success ++ Sample.frame_partial in
  read_twice 3 part1 part2 Sample.w_login
  = read_packet 3 (part1 ++ part2) Sample.w_login.
Proof. vm_compute. reflexivity. Qed.

(** With the cipher on, the two runs differ in nothing either. *)
Example read_twice_encrypted :
  let w := exec (enable_crypto ["042"%byte]) Sample.w_login in
  let wire := (encrypt "042"%byte
                 (Sample.frame_set_compression
                  ++ Sample.frame_login_success)).1 in
  read_twice 3 (take 4 wire) (drop 4 wire) w = read_packet 3 wire w ∧
  (proto_state ∘ net ∘ snd) <$> read_packet 3 wire w = Some PLAY_STATE.
Proof. vm_compute. auto. Qed.

(** The handshake asks for LOGIN, one compression announcement follows,
    then the login succeeds. *)
Lemma handshake_then_login_success_reaches_play_witness :
  let announcement :=
    {| ident := (2, 0, 3)%Z; str_ident := "LOGIN<Set Compression";
       data := {[ "threshold" := VInt 64 ]} |} in
  let w1 := exec (handle_handshake (Name "HANDSHAKE>Handshake")
                    (PPacket Sample.handshake_login)) Sample.w0 in
  let w2 := handle_all handle_comp (Name "LOGIN<Set Compression")
              [announcement] w1 in
  let w3 := exec (handle_login_success (Name "LOGIN<Login Success") PNone)
              w2 in
  data Sample.handshake_login !! "next_state" = Some (VInt LOGIN_STATE) ∧
  proto_state (net Sample.w0) = HANDSHAKE_STATE ∧
  proto_state (net w1) = LOGIN_STATE ∧
  only_comp_changed w1 w2 ∧
  proto_state (net w2) = LOGIN_STATE ∧
  proto_state (net w3) = PLAY_STATE.
Proof.
  split; [vm_compute; reflexivity |]. split; [reflexivity |].
  apply (handshake_then_login_success_reaches_play Sample.handshake_login).
  vm_compute. reflexivity.
Defined.

(** A connected engine that reads zero bytes, or fails to read. *)
Lemma hangup_and_error_same_effects_witness :
  let w := Sample.w_login in
  let cause := PExn (OSError "Connection reset by peer") in
  connected (net w) = true ∧
  same_effects (handleHUP (Name "SOCKET_HUP") PNone w)
    (spec_socket_failure (PStr "Socket Hung Up") w) ∧
  same_effects (handleERR (Name "SOCKET_ERR") cause w)
    (spec_socket_failure cause w) ∧
  same_effects (handleHUP (Name "SOCKET_HUP") PNone w)
    (handleERR (Name "SOCKET_HUP") (PStr "Socket Hung Up") w) ∧
  handleRECV 3 (Ok []) (Name "SOCKET_HUP") PNone w
  = Some ((record_event (Name "SOCKET_HUP") PNone;;
           handleHUP (Name "SOCKET_HUP") PNone) w) ∧
  handleRECV 3 (Raise (OSError "Connection reset by peer"))
    (Name "SOCKET_HUP") PNone w
  = Some ((record_event (Name "SOCKET_ERR") cause;;
           handleERR (Name "SOCKET_ERR") cause) w).
Proof.
  split; [reflexivity |].
  apply (hangup_and_error_same_effects 3 (Name "SOCKET_HUP") PNone
           (PExn (OSError "Connection reset by peer"))
           "Connection reset by peer" Sample.w_login).
  reflexivity.
Defined.

(** What the two failures leave: an engine back in HANDSHAKE, one
    ['disconnect'] on the bus, the loop killed because [sock_quit] is set. *)
Example hangup_evaluated :
  ∃ w, handleRECV 3 (Ok []) (Name "SOCKET_RECV") PNone Sample.w_login
       = Some (Ok tt, w) ∧
       net w = NetCore_new ∧
       events w = [(Name "SOCKET_HUP", PNone);
                   (Name "disconnect", PStr "Socket Hung Up")] ∧
       kill_event w = true.
Proof. eexists. split; [vm_compute; reflexivity |]. vm_compute. auto. Qed.

(** ** Further runs *)

Lemma read_packet_leaves_outbound_witness :
  let bytes := Sample.frame_set_compression ++ Sample.frame_login_success in
  ∃ r w',
    read_packet 3 bytes Sample.w_login = Some (r, w') ∧
    outbound w' = outbound Sample.w_login.
Proof.
  eexists _, _. split; [vm_compute; reflexivity |].
  eapply (read_packet_leaves_outbound 3
            (Sample.frame_set_compression ++ Sample.frame_login_success)
            Sample.w_login).
  vm_compute. reflexivity.
Defined.

Lemma push_queues_frame_witness :
  let w' := exec (push Sample.handshake_login) Sample.w0 in
  encrypted (net Sample.w0) = false ∧
  sbuff (net w')
  = sbuff (net Sample.w0)
    ++ encode Sample.handshake_login (comp_state (net Sample.w0))
         (comp_threshold (net Sample.w0)) ∧
  sending (ssock w')
  = match outcome (push Sample.handshake_login) Sample.w0 with
    | Ok _ => true
    | Raise _ => sending (ssock Sample.w0)
    end ∧
  connected (net w') = connected (net Sample.w0).
Proof.
  split; [reflexivity |].
  apply (push_queues_frame Sample.handshake_login Sample.w0). reflexivity.
Defined.

Lemma push_encrypts_frame_witness :
  let w := Sample.w_encrypted in
  let frame := encode Sample.handshake_login (comp_state (net w))
                 (comp_threshold (net w)) in
  let w' := exec (push Sample.handshake_login) w in
  sbuff (net w') = sbuff (net w) ++ (encrypt Sample.session_cipher frame).1 ∧
  cipher (net w') = Obj (encrypt Sample.session_cipher frame).2 ∧
  encrypted (net w') = true.
Proof.
  apply (push_encrypts_frame Sample.handshake_login Sample.session_cipher
           Sample.w_encrypted); reflexivity.
Defined.

Lemma push_handshake_switches_state_witness :
  let packet := Sample.handshake_login in
  let w := Sample.w0 in
  push packet w
  = (Ok tt,
     set_ssock (set_sending true (ssock w))
       (set_events
          (events w ++ [(Ident (ident packet), PPacket packet);
                        (Name "HANDSHAKE>Handshake", PPacket packet);
                        (Name ("LOGIN" +:+ "_STATE"), PNone)])
          (set_net
             (set_proto_state_attr 2
                (set_sbuff
                   (sbuff (net w)
                    ++ encode packet (comp_state (net w))
                         (comp_threshold (net w)))
                   (net w)))
             w))).
Proof.
  apply (push_handshake_switches_state Sample.handshake_login 2 "LOGIN"
           Sample.w0); reflexivity.
Defined.

Lemma push_handler_failure_leaves_frame_queued_witness :
  let packet := Sample.handshake_incomplete in
  let w := Sample.w0 in
  push packet w
  = (Raise (KeyError (VStr "next_state")),
     set_events
       (events w ++ [(Ident (ident packet), PPacket packet);
                     (Name "HANDSHAKE>Handshake", PPacket packet)])
       (set_net
          (set_sbuff
             (sbuff (net w)
              ++ encode packet (comp_state (net w)) (comp_threshold (net w)))
             (net w))
          w)).
Proof.
  apply (push_handler_failure_leaves_frame_queued Sample.handshake_incomplete
           Sample.w0); reflexivity.
Defined.

Lemma push_poll_send_flushes_witness :
  let packet := Sample.packet_login_success in
  let w := Sample.w_login in
  let writable := Readiness false true false in
  let w1 := exec (push packet) w in
  let w2 := exec (poll (-1) writable) w1 in
  let w3 := exec (handleSEND (Ok (length (sbuff (net w2))))
                    (Name "SOCKET_SEND") PNone) w2 in
  outcome (push packet) w = Ok tt ∧
  outcome (poll (-1) writable) w1 = Ok ["SOCKET_SEND"] ∧
  sbuff (net w2)
  = sbuff (net w) ++ encode packet (comp_state (net w))
                       (comp_threshold (net w)) ∧
  sbuff (net w3) = [] ∧
  outcome (poll (-1) writable) w3 = Ok [].
Proof.
  split; [vm_compute; reflexivity |].
  apply (push_poll_send_flushes Sample.packet_login_success (-1)
           (Name "SOCKET_SEND") PNone Sample.w_login);
    vm_compute; reflexivity.
Defined.

Lemma handleSEND_failure_resets_witness :
  let w := Sample.w_login in
  let error := PExn (OSError "Broken pipe") in
  handleSEND (Raise (OSError "Broken pipe")) (Name "SOCKET_SEND") PNone w
  = (Ok tt,
     {| net := NetCore_init (net w);
        ssock := SelectSocket.reset (ssock w);
        plugin := plugin w;
        events := events w ++ [(Name "SOCKET_ERR", error);
                               (Name "disconnect", error)];
        kill_event := kill_event w || sock_quit (plugin w);
        stdout := stdout w ++ [[error]; [PStr "Socket Error:"; error]] |}).
Proof.
  apply (handleSEND_failure_resets "Broken pipe" (Name "SOCKET_SEND") PNone
           Sample.w_login).
  reflexivity.
Defined.

Lemma handleRECV_decode_failure_escapes_witness :
  ∃ w',
    handleRECV 3 (Ok Sample.frame_unknown) (Name "SOCKET_RECV") PNone
      Sample.w_login
    = Some (Raise (KeyError (VInt 127)), w') ∧
    connected (net w') = true.
Proof.
  eexists.
  apply (handleRECV_decode_failure_escapes 3 "001"%byte ["127"%byte]
           (KeyError (VInt 127)) (Name "SOCKET_RECV") PNone Sample.w_login).
  - reflexivity.
  - vm_compute. reflexivity.
  - intros msg. discriminate.
Defined.

Lemma read_packet_keeps_cipher_invariant_witness :
  let wire := (encrypt Sample.session_cipher Sample.frame_set_compression).1 in
  cipher_invariant (net Sample.w_encrypted) ∧
  ∃ r w',
    read_packet 3 wire Sample.w_encrypted = Some (r, w') ∧
    cipher_invariant (net w').
Proof.
  split; [reflexivity |].
  eexists _, _. split; [vm_compute; reflexivity |].
  eapply (read_packet_keeps_cipher_invariant 3
            (encrypt Sample.session_cipher Sample.frame_set_compression).1
            Sample.w_encrypted).
  - reflexivity.
  - vm_compute. reflexivity.
Defined.

Lemma sample_decrypt_nil : ∀ (c : Cipher), decrypt c [] = ([], c).
Proof. intros c. reflexivity. Qed.

Lemma read_packet_empty_is_noop_witness :
  ∃ w',
    read_packet 3 (Sample.frame_set_compression ++ Sample.frame_partial)
      Sample.w_encrypted
    = Some (Ok tt, w') ∧
    read_packet 1 [] w' = Some (Ok tt, w').
Proof.
  eexists. split; [vm_compute; reflexivity |].
  eapply (read_packet_empty_is_noop sample_decrypt_nil 3 0
            (Sample.frame_set_compression ++ Sample.frame_partial)
            Sample.w_encrypted).
  vm_compute. reflexivity.
Defined.

Lemma push_keeps_cipher_invariant_witness :
  cipher_invariant (net Sample.w_encrypted) ∧
  cipher_invariant
    (net (exec (push Sample.handshake_login) Sample.w_encrypted)).
Proof.
  split; [reflexivity |].
  apply (push_keeps_cipher_invariant Sample.handshake_login
           Sample.w_encrypted).
  reflexivity.
Defined.

Lemma handle_handshake_unknown_state_witness :
  handle_handshake (Name "HANDSHAKE>Handshake")
    (PPacket Sample.handshake_unknown) Sample.w0
  = (Raise (KeyError (VInt 9)),
     set_net (set_proto_state_attr 9 (net Sample.w0)) Sample.w0).
Proof.
  apply (handle_handshake_unknown_state Sample.handshake_unknown 9);
    reflexivity.
Defined.

Lemma handlers_missing_field_witness :
  let packet := {| ident := (3, 0, 0)%Z; str_ident := "PLAY<Keep Alive";
                   data := {[ "keep_alive" := VInt 7 ]} |} in
  let name := Name "PLAY<Keep Alive" in
  handle_handshake name (PPacket packet) Sample.w_play
  = (Raise (KeyError (VStr "next_state")), Sample.w_play) ∧
  handle_comp name (PPacket packet) Sample.w_play
  = (Raise (KeyError (VStr "threshold")), Sample.w_play) ∧
  handle_disconnect name (PPacket packet) Sample.w_play
  = (Raise (KeyError (VStr "reason")), Sample.w_play).
Proof.
  apply (handlers_missing_field
           {| ident := (3, 0, 0)%Z; str_ident := "PLAY<Keep Alive";
              data := {[ "keep_alive" := VInt 7 ]} |});
    reflexivity.
Defined.

Lemma read_loop_login_success_switches_state_witness :
  let w := feed Sample.frame_login_success_plain Sample.w_login in
  let packet := Sample.packet_login_success in
  next_attempt w = (Ok (Some packet), 4) ∧
  read_loop 2 w
  = read_loop 1
      (set_events
         (events w ++ [(Ident (ident packet), PPacket packet);
                       (Name "LOGIN<Login Success", PPacket packet);
                       (Name ("PLAY" +:+ "_STATE"), PNone)])
         (set_net
            (set_proto_state_attr PLAY_STATE
               (set_rbuff
                  (BoundBuffer.advance 4 (BoundBuffer.save (rbuff (net w))))
                  (net w)))
            w)).
Proof.
  split; [vm_compute; reflexivity |].
  apply (read_loop_login_success_switches_state 1
           Sample.packet_login_success 4 "PLAY"
           (feed Sample.frame_login_success_plain Sample.w_login));
    vm_compute; reflexivity.
Defined.

Lemma read_loop_disconnect_goes_on_witness :
  let w := feed Sample.frame_disconnect Sample.w_play in
  let packet := Sample.packet_disconnect in
  next_attempt w = (Ok (Some packet), 3) ∧
  read_loop 2 w
  = read_loop 1
      (set_events
         (events w ++ [(Ident (ident packet), PPacket packet);
                       (Name "PLAY<Disconnect", PPacket packet);
                       (Name "disconnect", PVal (VBytes []))])
         (set_stdout
            (stdout w ++ [[PStr "Disconnected:"; PVal (VBytes [])]])
            (with_rbuff
               (BoundBuffer.advance 3 (BoundBuffer.save (rbuff (net w))))
               w))).
Proof.
  split; [vm_compute; reflexivity |].
  apply (read_loop_disconnect_goes_on 1 Sample.packet_disconnect 3
           (VBytes []) (feed Sample.frame_disconnect Sample.w_play));
    vm_compute; reflexivity.
Defined.

(** After the disconnect packet the engine is still connected, in PLAY. *)
Example disconnect_packet_evaluated :
  ∃ w', read_packet 3 Sample.frame_disconnect Sample.w_play
        = Some (Ok tt, w') ∧
        connected (net w') = true ∧
        proto_state (net w') = PLAY_STATE ∧
        map fst (events w')
        = [Ident (3, 0, 64)%Z; Name "PLAY<Disconnect"; Name "disconnect"].
Proof. eexists. split; [vm_compute; reflexivity |]. vm_compute. auto. Qed.

Lemma read_loop_set_compression_switches_layout_witness :
  let w := feed Sample.frame_set_compression Sample.w_login in
  let packet := Sample.packet_set_compression in
  next_attempt w = (Ok (Some packet), 3) ∧
  read_loop 2 w
  = read_loop 1
      (set_events
         (events w ++ [(Ident (ident packet), PPacket packet);
                       (Name "LOGIN<Set Compression", PPacket packet)])
         (set_net
            (set_comp_state_attr PROTO_COMP_ON
               (set_comp_threshold 64
                  (set_rbuff
                     (BoundBuffer.advance 3
                        (BoundBuffer.save (rbuff (net w))))
                     (net w))))
            w)).
Proof.
  split; [vm_compute; reflexivity |].
  apply (read_loop_set_compression_switches_layout 1
           Sample.packet_set_compression 3 64
           (feed Sample.frame_set_compression Sample.w_login));
    first [vm_compute; reflexivity | lia].
Defined.

Lemma reset_keeps_write_interest_witness :
  let w := Sample.w_login in
  let w' := exec (handleERR (Name "SOCKET_ERR") PNone)
              (exec (push Sample.packet_login_success) w) in
  outcome (push Sample.packet_login_success) w = Ok tt ∧
  sbuff (net w') = [] ∧
  connected (net w') = false ∧
  sending (ssock w') = true ∧
  outcome (poll (-1) (Readiness false true false)) w' = Ok ["SOCKET_SEND"].
Proof.
  split; [vm_compute; reflexivity |].
  apply (reset_keeps_write_interest Sample.packet_login_success
           (Name "SOCKET_ERR") PNone (-1) Sample.w_login);
    vm_compute; reflexivity.
Defined.

Lemma tick_hangup_witness :
  let w := Sample.w_login in
  ∃ w',
    tick 3 (-1) Sample.os_hangup (Name "event_tick") PNone w
    = Some (Ok Polled, w') ∧
    net w' = NetCore_init (net w) ∧
    sock (ssock w') = fresh_socket ∧
    events w'
    = events w
      ++ [(Name "SOCKET_RECV", PNone); (Name "SOCKET_HUP", PNone);
          (Name "disconnect", PStr "Socket Hung Up")]
      ++ (if true && sending (ssock w) then [(Name "SOCKET_SEND", PNone)]
          else [])
      ++ [(Name "SOCKET_ERR", PNone); (Name "disconnect", PNone)].
Proof.
  apply (tick_hangup 3 (-1) Sample.os_hangup true true (Name "event_tick")
           PNone Sample.w_login); reflexivity.
Defined.

(** The same tick with a frame pushed before it: the write flag is
    dispatched between the two disconnects and sends nothing. *)
Example tick_hangup_evaluated :
  let w := exec (push Sample.packet_login_success) Sample.w_login in
  (λ out, (out.1, map fst (events out.2), sbuff (net out.2)))
    <$> tick 3 (-1) Sample.os_hangup (Name "event_tick") PNone w
  = Some (Ok Polled,
          [Ident (2, 0, 2)%Z; Name "LOGIN<Login Success"; Name "PLAY_STATE";
           Name "SOCKET_RECV"; Name "SOCKET_HUP"; Name "disconnect";
           Name "SOCKET_SEND"; Name "SOCKET_ERR"; Name "disconnect"],
          []).
Proof. vm_compute. reflexivity. Qed.

Lemma tick_idle_sleeps_witness :
  connected (net Sample.w0) = false ∧
  tick 3 (-1) Sample.os_hangup (Name "event_tick") PNone Sample.w0
  = Some (Ok (Slept 1), Sample.w0) ∧
  tick 3 5 Sample.os_hangup (Name "event_tick") PNone Sample.w0
  = Some (Ok (Slept 5), Sample.w0).
Proof.
  split; [reflexivity |]. split.
  - apply (tick_idle_sleeps 3 (-1) Sample.os_hangup (Name "event_tick")
             PNone Sample.w0); [reflexivity | right; reflexivity].
  - apply (tick_idle_sleeps 3 5 Sample.os_hangup (Name "event_tick")
             PNone Sample.w0); [reflexivity | left; lia].
Defined.

Lemma tick_select_failure_witness :
  let w := Sample.w_login in
  tick 3 (-1) Sample.os_select_fails (Name "event_tick") PNone w
  = Some (Ok Polled,
          set_stdout (stdout w ++ [[PStr "Bad file descriptor"]])
            (set_ssock (set_sending false (ssock w)) w)).
Proof.
  apply (tick_select_failure 3 (-1) Sample.os_select_fails
           "Bad file descriptor" (Name "event_tick") PNone Sample.w_login);
    reflexivity.
Defined.
